(** * Pomocnik jezykowy: the note store (persistence and semantic retrieval)

    A shallow embedding of the database helpers of
    [Pomocnik_jezykowy_app.py]: [assure_db_collection_exists],
    [get_embedding], [add_note_to_db] and [list_notes_from_db].

    The Python functions are sequences of calls on two collaborators, the
    OpenAI embeddings endpoint and an in-memory Qdrant client.  Both are
    shared mutable objects, so the embedding threads one [World] through
    every call; a raised exception leaves the effects that happened
    before it in place, as in Python. *)

From Stdlib Require Import QArith.
From stdpp Require Import gmap strings list sorting.

Local Open Scope Z_scope.

(** ** Module constants *)

Definition EMBEDDING_MODEL : string := "text-embedding-3-large".
Definition EMBEDDING_DIM : Z := 3072.
Definition QDRANT_COLLECTION_NAME : string := "notes".

(** ** Data *)

(** Python exceptions that can travel through the helpers. *)
Inductive exn : Type :=
  | ValueError (msg : string)
  | KeyError (key : string)
  | IndexError (msg : string)
  | APIError (msg : string).

Inductive result (A : Type) : Type :=
  | Ok (a : A)
  | Raise (e : exn).
Arguments Ok {A} a.
Arguments Raise {A} e.

(** [qdrant_client.models] *)
Inductive Distance : Type := COSINE | EUCLID | DOT | MANHATTAN.

Record VectorParams : Type := { vp_size : Z; vp_distance : Distance }.

Record PointStruct : Type :=
  { ps_id : Z; ps_vector : list Q; ps_payload : gmap string string }.

(** What a scroll yields: the point without its vector. *)
Record ScrollRecord : Type :=
  { rec_id : Z; rec_payload : gmap string string }.

(** What a search yields. *)
Record ScoredPoint : Type :=
  { hit_id : Z; hit_score : Q; hit_payload : gmap string string }.

Record CountResult : Type := { count : Z }.

(** What the collection keeps under an id. *)
Record StoredPoint : Type :=
  { sp_vector : list Q; sp_payload : gmap string string }.

Record Collection : Type :=
  { config : VectorParams; points : gmap Z StoredPoint }.

(** The request [get_embedding] sends to [embeddings.create]. *)
Record EmbeddingRequest : Type :=
  { input : list string; model : string; dimensions : Z }.

(** The dictionaries [list_notes_from_db] builds, keys ["text"], ["score"]. *)
Record NoteResult : Type := { text : string; score : option Q }.

(** The objects the helpers share: the cached Qdrant client (its
    collections by name), the requests the embeddings endpoint has
    received so far, and what was printed. *)
Record World : Type :=
  { collections : gmap string Collection;
    embedding_requests : list EmbeddingRequest;
    stdout : list string }.

Definition with_collections (cs : gmap string Collection) (w : World) : World :=
  {| collections := cs;
     embedding_requests := embedding_requests w;
     stdout := stdout w |}.

Definition fresh_world : World :=
  {| collections := ∅; embedding_requests := []; stdout := [] |}.

(** ** Effects: state and exceptions *)

Definition M (A : Type) : Type := World → result A * World.

Definition ret {A} (a : A) : M A := λ w, (Ok a, w).

Definition raise {A} (e : exn) : M A := λ w, (Raise e, w).

Definition bind {A B} (c : M A) (k : A → M B) : M B :=
  λ w, match c w with
       | (Ok a, w') => k a w'
       | (Raise e, w') => (Raise e, w')
       end.

Declare Scope py_scope.
Delimit Scope py_scope with py.
Notation "x <- c ;; k" := (bind c (λ x, k))
  (at level 100, c at next level, right associativity) : py_scope.
Notation "c ;;; k" := (bind c (λ _, k))
  (at level 100, right associativity) : py_scope.
Local Open Scope py_scope.

(** [for x in xs: result.append(f(x))], stopping at the first exception. *)
Fixpoint for_append {A B} (f : A → M B) (xs : list A) : M (list B) :=
  match xs with
  | [] => ret []
  | x :: xs' => y <- f x ;; ys <- for_append f xs' ;; ret (y :: ys)
  end.

Definition print (s : string) : M unit :=
  λ w, (Ok tt, {| collections := collections w;
                  embedding_requests := embedding_requests w;
                  stdout := stdout w ++ [s] |}).

(** [d[key]] on a dictionary. *)
Definition getitem (d : gmap string string) (key : string) : M string :=
  match d !! key with
  | Some v => ret v
  | None => raise (KeyError key)
  end.

(** [xs[0]] on a list. *)
Definition first_item {A} (xs : list A) : M A :=
  match xs with
  | x :: _ => ret x
  | [] => raise (IndexError "list index out of range")
  end.

(** Python truthiness of the [query] argument: [None] and [""] are falsy. *)
Definition truthy (query : option string) : bool :=
  match query with
  | None => false
  | Some s => negb (bool_decide (s = ""))
  end.

(** ** The collection, ordered *)

Definition by_id : relation (Z * StoredPoint) := λ a b, a.1 ≤ b.1.

Definition higher_first : relation ScoredPoint :=
  λ a b, (hit_score b <= hit_score a)%Q.

Definition lower_first : relation ScoredPoint :=
  λ a b, (hit_score a <= hit_score b)%Q.

Global Instance by_id_dec : RelDecision by_id.
Proof. intros a b. unfold by_id. apply _. Defined.

Global Instance higher_first_dec : RelDecision higher_first.
Proof. intros a b. unfold higher_first, Qle. apply _. Defined.

Global Instance lower_first_dec : RelDecision lower_first.
Proof. intros a b. unfold lower_first, Qle. apply _. Defined.

Definition to_record (ip : Z * StoredPoint) : ScrollRecord :=
  {| rec_id := ip.1; rec_payload := sp_payload ip.2 |}.

Definition to_stored (p : PointStruct) : StoredPoint :=
  {| sp_vector := ps_vector p; sp_payload := ps_payload p |}.

Definition has_dim (d : Z) (v : list Q) : bool :=
  Z.of_nat (length v) =? d.

(** ** Stand-ins for the collaborators

    Concrete collaborators to run the helpers on: an embeddings endpoint
    that answers its k-th request (counting from 0) with the vector whose
    coordinates are all k, of the dimension asked for; one that is down;
    and a score that multiplies the first coordinates. *)

Definition counting_endpoint
    (log : list EmbeddingRequest) (req : EmbeddingRequest)
  : result (list (list Q)) :=
  Ok [repeat (inject_Z (Z.of_nat (length log))) (Z.to_nat (dimensions req))].

Definition endpoint_down
    (log : list EmbeddingRequest) (req : EmbeddingRequest)
  : result (list (list Q)) :=
  Raise (APIError "service unavailable").


Definition head_product (d : Distance) (a b : list Q) : Q :=
  match a, b with
  | x :: _, y :: _ => (x * y)%Q
  | _, _ => 0%Q
  end.

(** ** Python strings

    A Python [str] is read as the [string] of the bytes of its UTF-8
    encoding, the way the literals of this file are written: one [ascii]
    for an ASCII character, and for any other character a first byte
    followed by one to three continuation bytes, the values 128 to 191.
    [len] and slices count characters, so the bytes that are not
    continuation bytes.  [replace], [split] and [in] are used with an
    ASCII character as pattern and go byte by byte, no byte of a longer
    character being an ASCII one.  The operations are the ones the page
    code applies to the texts it shows: [len], a slice from the start,
    [replace] and [split] on a one-character pattern, [strip], and
    indexing a list from its end. *)

Definition newline : Ascii.ascii := Ascii.ascii_of_nat 10.
Definition lparen : Ascii.ascii := Ascii.ascii_of_nat 40.
Definition rparen : Ascii.ascii := Ascii.ascii_of_nat 41.

(** A byte that continues the character begun before it. *)
Definition continues (a : Ascii.ascii) : bool :=
  let n := Ascii.nat_of_ascii a in ((128 <=? n) && (n <=? 191))%nat.

(** [len(s)]: the number of characters of [s]. *)
Fixpoint str_len (s : string) : nat :=
  match s with
  | EmptyString => 0
  | String a s' => (if continues a then 0 else 1) + str_len s'
  end.

(** [s[:n]]: the first [n] characters of [s], each with all its bytes. *)
Fixpoint str_prefix (n : nat) (s : string) : string :=
  match s with
  | EmptyString => EmptyString
  | String a s' =>
      if continues a then String a (str_prefix n s')
      else match n with
           | S n' => String a (str_prefix n' s')
           | O => EmptyString
           end
  end.

(** [s.replace(old, new)], [old] one character. *)
Fixpoint str_replace (old : Ascii.ascii) (new : string) (s : string) : string :=
  match s with
  | EmptyString => EmptyString
  | String a s' =>
      (if Ascii.eqb a old then new else String a EmptyString)
        +:+ str_replace old new s'
  end.

(** [s.split(sep)], [sep] one character: never the empty list. *)
Fixpoint str_split (sep : Ascii.ascii) (s : string) : list string :=
  match s with
  | EmptyString => [EmptyString]
  | String a s' =>
      if Ascii.eqb a sep then EmptyString :: str_split sep s'
      else match str_split sep s' with
           | piece :: pieces => String a piece :: pieces
           | [] => [String a EmptyString]
           end
  end.

(** [pieces[-1]] on what [split] returned. *)
Definition last_piece (pieces : list string) : string :=
  default EmptyString (last pieces).

(** [str.isspace] on a character of one byte.  The texts the page
    strips are the labels of the language list, which are ASCII. *)
Definition isspace (a : Ascii.ascii) : bool :=
  let n := Ascii.nat_of_ascii a in
  ((9 <=? n) && (n <=? 13) || (28 <=? n) && (n <=? 32)
   || (n =? 133) || (n =? 160))%nat.

Fixpoint str_lstrip (s : string) : string :=
  match s with
  | EmptyString => EmptyString
  | String a s' => if isspace a then str_lstrip s' else s
  end.

Fixpoint str_rstrip (s : string) : string :=
  match s with
  | EmptyString => EmptyString
  | String a s' =>
      match str_rstrip s' with
      | EmptyString => if isspace a then EmptyString else String a EmptyString
      | rest => String a rest
      end
  end.

(** [s.strip()] *)
Definition str_strip (s : string) : string := str_rstrip (str_lstrip s).

(** [c in s] for one character. *)
Fixpoint str_has (c : Ascii.ascii) (s : string) : bool :=
  match s with
  | EmptyString => false
  | String a s' => Ascii.eqb a c || str_has c s'
  end.

(** Truthiness of a Python [str]. *)
Definition str_truthy (s : string) : bool := negb (bool_decide (s = "")).

(** ** The list of search results on the page *)

(** The label of one result in the radio list: the first 60 characters of
    the text on one line, three dots when the text is longer, and the
    score when there is one.  [repr] is Python's formatting of a float
    inside an f-string. *)
Definition text_short (note_text : string) : string :=
  str_replace newline " " (str_prefix 60 note_text)
    +:+ (if (60 <? str_len note_text)%nat then "..." else "").

Definition score_suffix (repr : Q → string) (s : option Q) : string :=
  match s with
  | Some x => " (score: " +:+ repr x +:+ ")"
  | None => ""
  end.

Definition note_label (repr : Q → string) (note : NoteResult) : string :=
  text_short (text note) +:+ score_suffix repr (score note).

(** The loop over [enumerate(notes)] appends one label per note; the
    [st.markdown] calls in it draw the page and return nothing. *)
Definition note_labels (repr : Q → string) (notes : list NoteResult)
  : list string :=
  note_label repr <$> notes.

(** [options=list(range(len(notes)))] *)
Definition radio_options (notes : list NoteResult) : list nat :=
  seq 0 (length notes).

(** [format_func=lambda i: note_labels[i]] *)
Definition format_func (labels : list string) (i : nat) : result string :=
  match labels !! i with
  | Some label => Ok label
  | None => Raise (IndexError "list index out of range")
  end.

(** ** The language list of the fourth translation tab *)

(** [tts_languages], in the order of the dictionary literal: code, then
    the name shown, the name used in the prompt and the voice hint. *)
Definition tts_languages : list (string * (string * string * string)) :=
  [ ("en", ("English", "angielski", "alloy"));
    ("de", ("German", "niemiecki", "echo"));
    ("es", ("Spanish", "hiszpański", "fable"));
    ("fr", ("French", "francuski", "nova"));
    ("it", ("Italian", "włoski", "onyx"));
    ("pt", ("Portuguese", "portugalski", "shimmer"));
    ("pl", ("Polish", "polski", "alloy"));
    ("tr", ("Turkish", "turecki", "alloy"));
    ("hi", ("Hindi", "hindi", "alloy"));
    ("ja", ("Japanese", "japoński", "alloy"));
    ("ko", ("Korean", "koreański", "alloy"));
    ("zh", ("Chinese", "chiński uproszczony", "alloy")) ].

(** [d[key]] on a dictionary written as the list of its items. *)
Fixpoint dict_getitem {V} (d : list (string * V)) (key : string) : result V :=
  match d with
  | [] => Raise (KeyError key)
  | (k, v) :: d' => if String.eqb k key then Ok v else dict_getitem d' key
  end.

(** [f"{v[0]} ({k})"] *)
Definition display_of (k : string) (v : string * string * string) : string :=
  v.1.1 +:+ " (" +:+ k +:+ ")".

(** [language_display = [f"{v[0]} ({k})" for k, v in tts_languages.items()]] *)
Definition language_display : list string :=
  (λ kv, display_of kv.1 kv.2) <$> tts_languages.

(** [selected_lang_display.split("(")[-1].replace(")", "").strip()] *)
Definition selected_lang_code (selected_lang_display : string) : string :=
  str_strip (str_replace rparen "" (last_piece (str_split lparen selected_lang_display))).

(** [tts_languages[selected_lang_code][1]] *)
Definition selected_lang_prompt (selected_lang_display : string)
  : result string :=
  match dict_getitem tts_languages (selected_lang_code selected_lang_display) with
  | Ok v => Ok v.1.2
  | Raise e => Raise e
  end.


(** ** The API key at the top of the script *)

(** How a run of the script goes on after a block: on to the next
    statement, [st.rerun()], or [st.stop()]. *)
Inductive flow : Type := Continue | Rerun | Stop.

(** Truthiness of a value that is a [str] or [None]; an absent entry read
    with [.get] is [None] too. *)
Definition opt_truthy (v : option string) : bool :=
  match v with
  | Some s => str_truthy s
  | None => false
  end.

(** What the block leaves: the ["openai_api_key"] entry of the session
    state, whether the input box was drawn, and how the run goes on. *)
Record GateRun : Type :=
  { gate_key : option string; gate_input_shown : bool; gate_flow : flow }.

(** [env] is what [dotenv_values] read (a name without a value maps to
    [None]), [typed] what [st.text_input] returns if it is drawn, and
    [session_key] the entry of the session state before. *)
Definition api_key_gate
    (env : gmap string (option string)) (typed : string)
    (session_key : option string) : GateRun :=
  let first :=
    if negb (opt_truthy session_key) then
      match env !! "OPENAI_API_KEY" with
      | Some value => (value, false, false)
      | None => (Some typed, true, str_truthy typed)
      end
    else (session_key, false, false) in
  let '(key, shown, rerun) := first in
  if rerun then
    {| gate_key := key; gate_input_shown := shown; gate_flow := Rerun |}
  else if negb (opt_truthy key) then
    {| gate_key := key; gate_input_shown := shown; gate_flow := Stop |}
  else
    {| gate_key := key; gate_input_shown := shown; gate_flow := Continue |}.

(** ** The version of the note a translation tab works on *)

(** [d[key]] on the text entries of the session state. *)
Definition text_getitem (texts : gmap string string) (key : string)
  : result string :=
  match texts !! key with
  | Some v => Ok v
  | None => Raise (KeyError key)
  end.

(** The options of the radio list: a version is offered when its text is
    there and not empty. *)
Definition note_options (texts : gmap string string) : list string :=
  (if str_truthy (default "" (texts !! "note_text"))
   then ["Pierwsza wersja notatki"] else [])
  ++ (if str_truthy (default "" (texts !! "note_text_corrected"))
      then ["Druga wersja notatki (poprawiona przez GPT-4o)"] else []).

(** [selected_note] is what [st.radio] returned. *)
Definition text_to_translate (texts : gmap string string) (selected_note : string)
  : result string :=
  if String.eqb selected_note "Pierwsza wersja notatki"
  then text_getitem texts "note_text"
  else text_getitem texts "note_text_corrected".


(** ** The chat column

    The right-hand column of the page when the chat is active.  What it
    reads and writes in [st.session_state]: the texts (the entries the
    text areas and the translations fill), the source chosen in the
    sidebar, the history of the conversation, and three entries that may
    be absent.  Beside them the state holds the requests the chat
    endpoint has received and what was drawn on the page. *)

Inductive Role : Type := system | user | assistant.

Global Instance Role_eq_dec : EqDecision Role.
Proof. solve_decision. Defined.

Record Message : Type := { role : Role; content : string }.

Global Instance Message_eq_dec : EqDecision Message.
Proof. solve_decision. Defined.

(** The request of [chat.completions.create]. *)
Record ChatRequest : Type :=
  { chat_model : string; messages : list Message; max_tokens : Z }.

Record ChatState : Type :=
  { session_texts : gmap string string;
    chat_text_source : string;
    chat_history : list Message;
    prev_chat_text_source : option string;
    clear_chat_input : option bool;
    chat_user_input : option string;
    chat_requests : list ChatRequest;
    page : list string }.

(** [text_sources], in the order of the dictionary literal: the label
    offered in the sidebar, then the entry of the session state it
    stands for. *)
Definition text_sources : list (string * string) :=
  [ ("Pierwsza wersja notatki", "note_text");
    ("Druga wersja notatki (poprawiona)", "note_text_corrected");
    ("Tłumaczenie na BR ENG", "translated_text_br");
    ("Tłumaczenie na US ENG", "translated_text_us");
    ("Tłumaczenie na PL", "translated_text_pl");
    ("Tłumaczenie na wybrany język", "translated_text_any");
    ("Pierwsza wersja wyszukanej notatki", "search_note_text");
    ("Druga wersja wyszukanej notatki (poprawiona)", "search_note_text_corrected");
    ("Tłumaczenie wyszukanej na BR ENG", "search_translated_text_br");
    ("Tłumaczenie wyszukanej na US ENG", "search_translated_text_us");
    ("Tłumaczenie wyszukanej na PL", "search_translated_text_pl");
    ("Tłumaczenie wyszukanej na wybrany język", "search_translated_text_any") ].

(** [str(e)] for the exceptions of this development; a [KeyError] shows
    its key between quotes. *)
Definition str_exn (e : exn) : string :=
  match e with
  | ValueError msg => msg
  | KeyError key => "'" +:+ key +:+ "'"
  | IndexError msg => msg
  | APIError msg => msg
  end.

Definition UI (A : Type) : Type := ChatState → result A * ChatState.

Definition ui_ret {A} (a : A) : UI A := λ s, (Ok a, s).

Definition ui_bind {A B} (c : UI A) (k : A → UI B) : UI B :=
  λ s, match c s with
       | (Ok a, s') => k a s'
       | (Raise e, s') => (Raise e, s')
       end.

Definition gets {A} (f : ChatState → A) : UI A := λ s, (Ok (f s), s).

Definition modify (f : ChatState → ChatState) : UI unit := λ s, (Ok tt, f s).

Declare Scope ui_scope.
Delimit Scope ui_scope with ui.
Notation "x <- c ;; k" := (ui_bind c (λ x, k))
  (at level 100, c at next level, right associativity) : ui_scope.
Notation "c ;;; k" := (ui_bind c (λ _, k))
  (at level 100, right associativity) : ui_scope.

Definition with_history (h : list Message) (s : ChatState) : ChatState :=
  {| session_texts := session_texts s;
     chat_text_source := chat_text_source s;
     chat_history := h;
     prev_chat_text_source := prev_chat_text_source s;
     clear_chat_input := clear_chat_input s;
     chat_user_input := chat_user_input s;
     chat_requests := chat_requests s;
     page := page s |}.

(** [st.session_state.chat_history.append(m)] *)
Definition append_history (m : Message) (s : ChatState) : ChatState :=
  with_history (chat_history s ++ [m]) s.

Definition with_prev (p : option string) (s : ChatState) : ChatState :=
  {| session_texts := session_texts s;
     chat_text_source := chat_text_source s;
     chat_history := chat_history s;
     prev_chat_text_source := p;
     clear_chat_input := clear_chat_input s;
     chat_user_input := chat_user_input s;
     chat_requests := chat_requests s;
     page := page s |}.

Definition with_clear (c : option bool) (s : ChatState) : ChatState :=
  {| session_texts := session_texts s;
     chat_text_source := chat_text_source s;
     chat_history := chat_history s;
     prev_chat_text_source := prev_chat_text_source s;
     clear_chat_input := c;
     chat_user_input := chat_user_input s;
     chat_requests := chat_requests s;
     page := page s |}.

Definition with_input (i : option string) (s : ChatState) : ChatState :=
  {| session_texts := session_texts s;
     chat_text_source := chat_text_source s;
     chat_history := chat_history s;
     prev_chat_text_source := prev_chat_text_source s;
     clear_chat_input := clear_chat_input s;
     chat_user_input := i;
     chat_requests := chat_requests s;
     page := page s |}.

(** [st.subheader], [st.markdown], [st.write]: one more piece of text on
    the page. *)
Definition draw (line : string) : UI unit :=
  λ s, (Ok tt,
        {| session_texts := session_texts s;
           chat_text_source := chat_text_source s;
           chat_history := chat_history s;
           prev_chat_text_source := prev_chat_text_source s;
           clear_chat_input := clear_chat_input s;
           chat_user_input := chat_user_input s;
           chat_requests := chat_requests s;
           page := page s ++ [line] |}).

Fixpoint draw_each (lines : list string) : UI unit :=
  match lines with
  | [] => ui_ret tt
  | line :: rest => ui_bind (draw line) (λ _, draw_each rest)
  end.

(** [text_sources[st.session_state.chat_text_source]] *)
Definition text_source_key : UI string :=
  λ s, (dict_getitem text_sources (chat_text_source s), s).

(** [st.session_state.get(key, "")] on a text entry. *)
Definition session_get_text (key : string) : UI string :=
  gets (λ s, default "" (session_texts s !! key)).

(** The system message that carries the text talked about. *)
Definition system_prompt (text_for_chat : string) : Message :=
  {| role := system;
     content :=
       "Jesteś ekspertem językowym. Odpowiadasz na pytania dotyczące wybranego tekstu:"
         +:+ String newline (String newline text_for_chat) |}.

(** The line of the transcript drawn for a message. *)
Definition transcript_line (msg : Message) : string :=
  match role msg with
  | user => "**Ty:** " +:+ content msg
  | assistant => "**ChatGPT-4o:** " +:+ content msg
  | system => "**Kontekst rozmowy:** " +:+ content msg
  end.

Section ChatColumn.

Local Open Scope ui_scope.

(** The answer of the chat endpoint to a request, given the requests it
    received before: the content of the first choice, or an exception. *)
Variable chat_completions_create :
  list ChatRequest → ChatRequest → result string.

(** The [try] block around the call: the request carries the history as
    it is at that moment; whatever is raised inside becomes the text of
    the answer. *)
Definition ask_endpoint : UI string :=
  λ s, let req := {| chat_model := "gpt-4o";
                     messages := chat_history s;
                     max_tokens := 1024 |} in
       (Ok (match chat_completions_create (chat_requests s) req with
            | Ok answer => answer
            | Raise e => "Błąd komunikacji z OpenAI: " +:+ str_exn e
            end),
        {| session_texts := session_texts s;
           chat_text_source := chat_text_source s;
           chat_history := chat_history s;
           prev_chat_text_source := prev_chat_text_source s;
           clear_chat_input := clear_chat_input s;
           chat_user_input := chat_user_input s;
           chat_requests := chat_requests s ++ [req];
           page := page s |}).

(** From the lookup of the text to the reset on a change of source. *)
Definition chat_context : UI string :=
  text_key <- text_source_key ;;
  text_for_chat <- session_get_text text_key ;;
  history <- gets chat_history ;;
  (if bool_decide (history = []) && str_truthy text_for_chat
   then modify (append_history (system_prompt text_for_chat))
   else ui_ret tt) ;;;
  prev <- gets prev_chat_text_source ;;
  source <- gets chat_text_source ;;
  (if bool_decide (prev = None)
   then modify (with_prev (Some source))
   else ui_ret tt) ;;;
  prev <- gets prev_chat_text_source ;;
  if bool_decide (prev ≠ Some source) then
    modify (with_history []) ;;;
    text_key <- text_source_key ;;
    text_for_chat <- session_get_text text_key ;;
    (if str_truthy text_for_chat
     then modify (append_history (system_prompt text_for_chat))
     else ui_ret tt) ;;;
    modify (with_prev (Some source)) ;;;
    ui_ret text_for_chat
  else ui_ret text_for_chat.

(** [if st.session_state.get("clear_chat_input"): ...] *)
Definition chat_clear_input : UI unit :=
  clear <- gets clear_chat_input ;;
  if bool_decide (clear = Some true) then
    modify (with_input (Some "")) ;;;
    modify (with_clear (Some false))
  else ui_ret tt.

(** [if user_input: ...], [user_input] being what [st.text_input]
    returned. *)
Definition chat_ask (user_input : string) : UI unit :=
  if str_truthy user_input then
    text_key <- text_source_key ;;
    text_for_chat <- session_get_text text_key ;;
    history <- gets chat_history ;;
    (match history with
     | first :: rest =>
         if bool_decide (role first = system)
         then modify (with_history (system_prompt text_for_chat :: rest))
         else modify (with_history (system_prompt text_for_chat :: history))
     | [] => modify (with_history (system_prompt text_for_chat :: history))
     end) ;;;
    modify (append_history {| role := user; content := user_input |}) ;;;
    answer <- ask_endpoint ;;
    modify (append_history {| role := assistant; content := answer |}) ;;;
    modify (with_clear (Some true))
  else ui_ret tt.

(** The button that clears the history; the value says whether
    [st.rerun()] was called. *)
Definition chat_clear_button (clicked : bool) : UI bool :=
  if clicked then
    modify (with_history []) ;;;
    modify (with_clear (Some true)) ;;;
    ui_ret true
  else ui_ret false.

(** One run of the column from the box on, whatever the box returns. *)
Definition chat_column (user_input : string) (clear_clicked : bool) : UI bool :=
  draw "💬 Rozmowa z ChatGPT-4o o wybranym tekście" ;;;
  text_for_chat <- chat_context ;;
  draw "**Tekst do rozmowy:**" ;;;
  draw text_for_chat ;;;
  chat_clear_input ;;;
  chat_ask user_input ;;;
  history <- gets chat_history ;;
  draw_each (transcript_line <$> history) ;;;
  chat_clear_button clear_clicked.

(** [st.text_input(..., value=st.session_state.get("chat_user_input", ""),
    key="chat_user_input")]: the box returns the entry of the session
    state under its key, which is where the text typed stands when the
    run starts, and [value] when there is no entry. *)
Definition text_input : UI string :=
  entry <- gets chat_user_input ;;
  ui_ret (default "" entry).

(** One run of the column as the page makes it: the question is what
    the box returns, after [chat_clear_input] has had its say. *)
Definition chat_page (clear_clicked : bool) : UI bool :=
  draw "💬 Rozmowa z ChatGPT-4o o wybranym tekście" ;;;
  text_for_chat <- chat_context ;;
  draw "**Tekst do rozmowy:**" ;;;
  draw text_for_chat ;;;
  chat_clear_input ;;;
  user_input <- text_input ;;
  chat_ask user_input ;;;
  history <- gets chat_history ;;
  draw_each (transcript_line <$> history) ;;;
  chat_clear_button clear_clicked.

End ChatColumn.


(** The user types into the box: the text is in the session state,
    under the key of the box, when the next run starts. *)
Definition type_text (question : string) (s : ChatState) : ChatState :=
  with_input (Some question) s.

(** The history has no system message after its first message. *)
Definition system_only_first (history : list Message) : Prop :=
  Forall (λ m, role m ≠ system) (tail history).


(** The history a run works on once the source has been looked at: reset
    to the system message of the text when the source differs from the
    one of the run before, opened with that message when it was empty. *)
Definition context_history (s : ChatState) (text_for_chat : string)
  : list Message :=
  if bool_decide (prev_chat_text_source s = None
                  ∨ prev_chat_text_source s = Some (chat_text_source s))
  then
    if bool_decide (chat_history s = []) && str_truthy text_for_chat
    then [system_prompt text_for_chat]
    else chat_history s
  else
    if str_truthy text_for_chat then [system_prompt text_for_chat] else [].

(** A history without the system message it starts with, if it does. *)
Definition without_leading_system (history : list Message) : list Message :=
  match history with
  | first :: rest => if bool_decide (role first = system) then rest else history
  | [] => []
  end.


(** Stand-ins for the chat endpoint, one that repeats the last message it
    is sent and one that is down, and a session state to start from. *)
Definition chat_endpoint_echo
    (log : list ChatRequest) (req : ChatRequest) : result string :=
  Ok (default "" (content <$> last (messages req))).

Definition chat_endpoint_down
    (log : list ChatRequest) (req : ChatRequest) : result string :=
  Raise (APIError "timeout").

Definition chat_start : ChatState :=
  {| session_texts := {[ "note_text" := "Ala ma kota" ]};
     chat_text_source := "Pierwsza wersja notatki";
     chat_history := [];
     prev_chat_text_source := None;
     clear_chat_input := None;
     chat_user_input := None;
     chat_requests := [];
     page := [] |}.


Section NoteStore.

(** The two things the application does not compute itself: the answer
    of the OpenAI embeddings endpoint (it may depend on everything the
    endpoint was asked before, and may be an exception), and the number
    Qdrant assigns to a pair of vectors under a distance. *)
Variable embeddings_create :
  list EmbeddingRequest → EmbeddingRequest → result (list (list Q)).
Variable calculate_distance : Distance → list Q → list Q → Q.

(** ** The collaborators *)

(** [openai_client.embeddings.create(...)]; [data] is the list of the
    embeddings returned, one per input. *)
Definition openai_embeddings_create (req : EmbeddingRequest)
  : M (list (list Q)) :=
  λ w, (embeddings_create (embedding_requests w) req,
        {| collections := collections w;
           embedding_requests := embedding_requests w ++ [req];
           stdout := stdout w |}).

(** Modelled from the spec: the Qdrant client is a third-party package
    and not part of the sources; the operations below follow the
    VectorIndex contract (exists, create, insert, count, scroll,
    search) for the in-memory client the application opens.  A missing
    collection and a vector of the wrong length are the index
    failures. *)
Definition get_collection (name : string) : M Collection :=
  λ w, match collections w !! name with
       | Some c => (Ok c, w)
       | None => (Raise (ValueError ("Collection " +:+ name +:+ " not found")), w)
       end.

(** Modelled from the spec: [exists(name) -> bool]. *)
Definition collection_exists (name : string) : M bool :=
  λ w, (Ok (bool_decide (is_Some (collections w !! name))), w).

(** Modelled from the spec: [create(name, dimension, metric)]; the
    client refuses a name that is taken. *)
Definition create_collection (name : string) (vectors_config : VectorParams)
  : M unit :=
  λ w, match collections w !! name with
       | Some _ =>
           (Raise (ValueError ("Collection " +:+ name +:+ " already exists")), w)
       | None =>
           (Ok tt,
            with_collections
              (<[name := {| config := vectors_config; points := ∅ |}]>
                 (collections w)) w)
       end.

(** Modelled from the spec: [count(name) -> integer], the exact count
    of stored records. *)
Definition qdrant_count (name : string) (exact : bool) : M CountResult :=
  c <- get_collection name ;;
  ret {| count := Z.of_nat (size (points c)) |}.

(** Modelled from the spec: part of [insert].  What the client holds
    under the id of [p] when the write of [p] has stopped at the vector:
    the payload of [p], and for vector the one the id had before, or
    none. *)
Definition without_vector (m : gmap Z StoredPoint) (p : PointStruct)
  : StoredPoint :=
  {| sp_vector := default [] (sp_vector <$> m !! ps_id p);
     sp_payload := ps_payload p |}.

(** Modelled from the spec: the write of [insert], one point after the
    other.  The contract names no failure of the write and does not make
    it all-or-nothing.  The in-memory client puts the id and the payload
    of a point on record before it copies the vector into its row, and
    the copy of a vector of the wrong length raises: the points before
    are written, the point itself is on record without its vector, the
    points after are not reached. *)
Fixpoint write_points (size : Z) (pts : list PointStruct)
    (m : gmap Z StoredPoint) : result unit * gmap Z StoredPoint :=
  match pts with
  | [] => (Ok tt, m)
  | p :: rest =>
      if has_dim size (ps_vector p) then
        write_points size rest (<[ps_id p := to_stored p]> m)
      else
        (Raise (ValueError "Vector dimension error"),
         <[ps_id p := without_vector m p]> m)
  end.

(** Modelled from the spec: [insert(name, id, vector, payload)]; an
    upsert, so a record under an id already present is replaced.  When
    the write raises, what [write_points] has put on record by then
    stays. *)
Definition upsert (name : string) (pts : list PointStruct) : M unit :=
  c <- get_collection name ;;
  λ w, let written := write_points (vp_size (config c)) pts (points c) in
       (written.1,
        with_collections
          (<[name := {| config := config c; points := written.2 |}]>
             (collections w)) w).

(** Modelled from the spec: [scroll(name, limit)], the first [limit]
    records in the enumeration order of the client, which is by
    ascending id, and the id the next page would start at. *)
Definition scroll (name : string) (limit : Z)
  : M (list ScrollRecord * option Z) :=
  c <- get_collection name ;;
  let sorted := merge_sort by_id (map_to_list (points c)) in
  ret (to_record <$> take (Z.to_nat limit) sorted,
       fst <$> sorted !! Z.to_nat limit).

(** A stored point with its score against the query vector. *)
Definition to_scored (d : Distance) (query_vector : list Q)
    (ip : Z * StoredPoint) : ScoredPoint :=
  {| hit_id := ip.1;
     hit_score := calculate_distance d query_vector (sp_vector ip.2);
     hit_payload := sp_payload ip.2 |}.

(** Modelled from the spec: [search(name, vector, limit)], the [limit]
    best records, best first: the highest score first under cosine and
    dot product, the lowest first under the two metrics that are
    lengths. *)
Definition search (name : string) (query_vector : list Q) (limit : Z)
  : M (list ScoredPoint) :=
  c <- get_collection name ;;
  if has_dim (vp_size (config c)) query_vector then
    let d := vp_distance (config c) in
    let scored :=
      to_scored d query_vector <$> merge_sort by_id (map_to_list (points c)) in
    let ranked :=
      match d with
      | COSINE | DOT => merge_sort higher_first scored
      | EUCLID | MANHATTAN => merge_sort lower_first scored
      end in
    ret (take (Z.to_nat limit) ranked)
  else raise (ValueError "Vector dimension error").

(** ** The database helpers of the application *)

Definition assure_db_collection_exists : M unit :=
  found <- collection_exists QDRANT_COLLECTION_NAME ;;
  if negb found then
    print "Tworzę kolekcję" ;;;
    create_collection QDRANT_COLLECTION_NAME
      {| vp_size := EMBEDDING_DIM; vp_distance := COSINE |}
  else
    print "Kolekcja już istnieje".

(** [get_openai_client()] only builds a client object from the API key
    of the session; the one call that reaches the endpoint is
    [embeddings.create], and [result.data[0].embedding] is the first
    embedding of the answer. *)
Definition get_embedding (text : string) : M (list Q) :=
  data <- openai_embeddings_create
            {| input := [text];
               model := EMBEDDING_MODEL;
               dimensions := EMBEDDING_DIM |} ;;
  first_item data.

(** Python evaluates the arguments of [upsert] before it calls it: the
    count is read first, then the embedding is requested, and only
    then is the point written. *)
Definition add_note_to_db (note_text : string) : M unit :=
  points_count <- qdrant_count QDRANT_COLLECTION_NAME true ;;
  vector <- get_embedding note_text ;;
  upsert QDRANT_COLLECTION_NAME
    [ {| ps_id := count points_count + 1;
         ps_vector := vector;
         ps_payload := {[ "text" := note_text ]} |} ].

(** [query=None] is the default of the parameter.  In the [else] branch
    [query] is a non-empty string, the one [default] extracts. *)
Definition list_notes_from_db (query : option string) : M (list NoteResult) :=
  if negb (truthy query) then
    page <- scroll QDRANT_COLLECTION_NAME 12 ;;
    let notes := page.1 in
    for_append
      (λ note, t <- getitem (rec_payload note) "text" ;;
               ret {| text := t; score := None |})
      notes
  else
    query_vector <- get_embedding (default "" query) ;;
    notes <- search QDRANT_COLLECTION_NAME query_vector 10 ;;
    for_append
      (λ note, t <- getitem (hit_payload note) "text" ;;
               ret {| text := t; score := Some (hit_score note) |})
      notes.

(** ** Sessions: the helpers called one after another *)

(** The application calls the three helpers from its button handlers,
    one at a time; what a handler does with the value returned does not
    reach the store. *)
Inductive request : Type :=
  | Assure
  | AddNote (note_text : string)
  | ListNotes (query : option string).

Definition perform (r : request) (w : World) : World :=
  match r with
  | Assure => (assure_db_collection_exists w).2
  | AddNote note_text => (add_note_to_db note_text w).2
  | ListNotes query => (list_notes_from_db query w).2
  end.

Definition session (rs : list request) : World :=
  foldl (λ w r, perform r w) fresh_world rs.

(** The notes collection of a world, when it has been created. *)
Definition notes_of (w : World) : option Collection :=
  collections w !! QDRANT_COLLECTION_NAME.

(** The ids [add_note_to_db] computes for the notes it stores when it is
    called on each text in turn: each is the count read by that call
    plus one, recorded when the call returns normally. *)
Fixpoint add_all (texts : list string) (w : World)
  : list (Z * string) * World :=
  match texts with
  | [] => ([], w)
  | t :: ts =>
      let assigned :=
        match (qdrant_count QDRANT_COLLECTION_NAME true w).1,
              (add_note_to_db t w).1 with
        | Ok points_count, Ok _ => [(count points_count + 1, t)]
        | _, _ => []
        end in
      let rest := add_all ts (add_note_to_db t w).2 in
      (assigned ++ rest.1, rest.2)
  end.

(** Whether, along the run of [add_all], every embedding call answers
    with a vector of the configured dimension. *)
Fixpoint all_embedded (texts : list string) (w : World) : bool :=
  match texts with
  | [] => true
  | t :: ts =>
      match (get_embedding t w).1 with
      | Ok vector =>
          has_dim EMBEDDING_DIM vector
          && all_embedded ts (add_note_to_db t w).2
      | Raise _ => false
      end
  end.

(** ** One call of [add_note_to_db], collaborator call by collaborator call *)

(** Where a call of [add_note_to_db] stands: about to read the count,
    about to request the embedding (the count in hand), about to write
    the point (count and vector in hand), or finished. *)
Inductive add_thread : Type :=
  | AtCount (note_text : string)
  | AtEmbedding (note_text : string) (points_count : CountResult)
  | AtUpsert (note_text : string) (points_count : CountResult)
             (vector : list Q)
  | Returned
  | Raised (e : exn).

Definition add_step (t : add_thread) (w : World) : add_thread * World :=
  match t with
  | AtCount note_text =>
      match qdrant_count QDRANT_COLLECTION_NAME true w with
      | (Ok points_count, w') => (AtEmbedding note_text points_count, w')
      | (Raise e, w') => (Raised e, w')
      end
  | AtEmbedding note_text points_count =>
      match get_embedding note_text w with
      | (Ok vector, w') => (AtUpsert note_text points_count vector, w')
      | (Raise e, w') => (Raised e, w')
      end
  | AtUpsert note_text points_count vector =>
      match upsert QDRANT_COLLECTION_NAME
              [ {| ps_id := count points_count + 1;
                   ps_vector := vector;
                   ps_payload := {[ "text" := note_text ]} |} ] w with
      | (Ok _, w') => (Returned, w')
      | (Raise e, w') => (Raised e, w')
      end
  | Returned => (Returned, w)
  | Raised e => (Raised e, w)
  end.

(** Two calls sharing the client, with no lock: the schedule says which
    of the two makes its next collaborator call. *)
Inductive turn : Type := First | Second.

Fixpoint interleave (schedule : list turn) (a b : add_thread) (w : World)
  : add_thread * add_thread * World :=
  match schedule with
  | [] => (a, b, w)
  | First :: rest =>
      let s := add_step a w in interleave rest s.1 b s.2
  | Second :: rest =>
      let s := add_step b w in interleave rest a s.1 s.2
  end.

(** ** What holds of the notes collection in every session *)

Record store_ok (c : Collection) : Prop :=
  { ok_config :
      config c = {| vp_size := EMBEDDING_DIM; vp_distance := COSINE |};
    ok_ids :
      ∀ id, is_Some (points c !! id) ↔ 1 ≤ id ≤ Z.of_nat (size (points c));
    ok_text :
      ∀ id p, points c !! id = Some p → is_Some (sp_payload p !! "text") }.

Definition world_ok (w : World) : Prop :=
  (∀ c, notes_of w = Some c → store_ok c).

(** The point [add_note_to_db] writes. *)
Definition note_point (note_text : string) (vector : list Q) : StoredPoint :=
  {| sp_vector := vector; sp_payload := {[ "text" := note_text ]} |}.

(** The world once the embeddings endpoint has received one more
    request for [text]. *)
Definition asked (text : string) (w : World) : World :=
  {| collections := collections w;
     embedding_requests :=
       embedding_requests w
         ++ [ {| input := [text];
                 model := EMBEDDING_MODEL;
                 dimensions := EMBEDDING_DIM |} ];
     stdout := stdout w |}.

(** The dictionary [list_notes_from_db] appends for a scrolled record
    and for a search hit whose payload has a ["text"]. *)
Definition browse_entry (note : ScrollRecord) : NoteResult :=
  {| text := default "" (rec_payload note !! "text"); score := None |}.

Definition search_entry (note : ScoredPoint) : NoteResult :=
  {| text := default "" (hit_payload note !! "text");
     score := Some (hit_score note) |}.

(** The points of a collection in the order a scroll walks them. *)
Definition in_scroll_order (c : Collection) : list (Z * StoredPoint) :=
  merge_sort by_id (map_to_list (points c)).

(** The note [it.2] is what the collection holds under the id [it.1]. *)
Definition stored_under (c : Collection) (it : Z * string) : Prop :=
  ∃ p, points c !! it.1 = Some p ∧ sp_payload p !! "text" = Some it.2.

(** Results with a score, the better one first. *)
Definition best_first : relation NoteResult :=
  λ a b, match score a, score b with
         | Some x, Some y => (y <= x)%Q
         | _, _ => False
         end.

(** ** The two save buttons of the tab that adds a note *)

(** The world after a run holds, besides what the world before held,
    only points written by [add_note_to_db] for a non-empty text. *)
Definition only_adds_nonempty (w w' : World) : Prop :=
  ∀ c' id p,
    notes_of w' = Some c' → points c' !! id = Some p →
    (∃ c, notes_of w = Some c ∧ points c !! id = Some p)
    ∨ (∃ t v, t ≠ "" ∧ p = note_point t v).

(** [texts] holds the entries of [st.session_state] that are texts.
    [clicked] is what [st.button] returns; with an empty ["note_text"]
    the [and] does not reach the button.  The value is the toast shown. *)
Definition save_first_version (texts : gmap string string) (clicked : bool)
  : M (option string) :=
  if str_truthy (default "" (texts !! "note_text")) && clicked then
    note_text <- getitem texts "note_text" ;;
    add_note_to_db note_text ;;;
    ret (Some "Pierwsza wersja notatki zapisana")
  else ret None.

Definition save_second_version (texts : gmap string string) (clicked : bool)
  : M (option string) :=
  match texts !! "note_text_corrected" with
  | Some corrected =>
      if str_truthy corrected then
        if clicked then
          note_text <- getitem texts "note_text_corrected" ;;
          add_note_to_db note_text ;;;
          ret (Some "Druga wersja notatki zapisana")
        else ret None
      else ret None
  | None => ret None
  end.

(** ** Stepping through the monad *)

Lemma bind_Ok {A B} (c : M A) (k : A → M B) w a w' :
  c w = (Ok a, w') → bind c k w = k a w'.
Proof. intros H. unfold bind. by rewrite H. Qed.

Lemma bind_Raise {A B} (c : M A) (k : A → M B) w e w' :
  c w = (Raise e, w') → bind c k w = (Raise e, w').
Proof. intros H. unfold bind. by rewrite H. Qed.

Lemma bind_Ok_inv {A B} (c : M A) (k : A → M B) w b w' :
  bind c k w = (Ok b, w') →
  ∃ a w1, c w = (Ok a, w1) ∧ k a w1 = (Ok b, w').
Proof.
  unfold bind. destruct (c w) as [[a|e] w1]; [eauto | discriminate].
Qed.

(** ** The loop of [list_notes_from_db] *)

Lemma for_append_pure {A B} (f : A → M B) (g : A → B) xs w :
  (∀ x, x ∈ xs → f x w = (Ok (g x), w)) →
  for_append f xs w = (Ok (g <$> xs), w).
Proof.
  induction xs as [|x xs IH]; intros Hf; [done|]. simpl.
  rewrite (bind_Ok _ _ _ _ _ (Hf x ltac:(left))).
  rewrite (bind_Ok _ _ _ _ _ (IH (λ y Hy, Hf y ltac:(by right)))). done.
Qed.

Lemma for_append_world {A B} (f : A → M B) xs w :
  (∀ x w1, (f x w1).2 = w1) → (for_append f xs w).2 = w.
Proof.
  intros Hf. induction xs as [|x xs IH]; [done|]. simpl. unfold bind.
  specialize (Hf x w). destruct (f x w) as [[y|e] w1]; simpl in Hf; subst w1; [|done].
  destruct (for_append f xs w) as [[ys|e] w1]; simpl in IH; by subst w1.
Qed.

Lemma for_append_Ok {A B} (f : A → M B) (P : A → B → Prop) xs w ys w' :
  (∀ x w1 y w2, f x w1 = (Ok y, w2) → P x y) →
  for_append f xs w = (Ok ys, w') → Forall2 P xs ys.
Proof.
  intros Hf. revert w ys. induction xs as [|x xs IH]; intros w ys; simpl.
  - intros [= <- _]. constructor.
  - intros H. apply bind_Ok_inv in H as (y & w1 & Hy & H).
    apply bind_Ok_inv in H as (ys' & w2 & Hys & [= <- <-]).
    constructor; eauto.
Qed.

Lemma getitem_world d key w : (getitem d key w).2 = w.
Proof. unfold getitem. by destruct (d !! key). Qed.

Lemma getitem_Some d key v w : d !! key = Some v → getitem d key w = (Ok v, w).
Proof. intros H. unfold getitem. by rewrite H. Qed.

(** ** The collaborators, call by call *)

Lemma get_collection_Some name w c :
  collections w !! name = Some c → get_collection name w = (Ok c, w).
Proof. intros H. unfold get_collection. by rewrite H. Qed.

Lemma get_collection_None name w :
  collections w !! name = None →
  get_collection name w
  = (Raise (ValueError ("Collection " +:+ name +:+ " not found")), w).
Proof. intros H. unfold get_collection. by rewrite H. Qed.

Lemma get_collection_world name w : (get_collection name w).2 = w.
Proof. unfold get_collection. by destruct (collections w !! name). Qed.

Lemma qdrant_count_Some w c exact :
  notes_of w = Some c →
  qdrant_count QDRANT_COLLECTION_NAME exact w
  = (Ok {| count := Z.of_nat (size (points c)) |}, w).
Proof.
  intros H. unfold qdrant_count. by rewrite (bind_Ok _ _ _ _ _ (get_collection_Some _ _ _ H)).
Qed.

Lemma qdrant_count_None w exact :
  notes_of w = None →
  qdrant_count QDRANT_COLLECTION_NAME exact w
  = (Raise (ValueError "Collection notes not found"), w).
Proof.
  intros H. unfold qdrant_count.
  by rewrite (bind_Raise _ _ _ _ _ (get_collection_None _ _ H)).
Qed.

Lemma get_embedding_world text w : (get_embedding text w).2 = asked text w.
Proof.
  unfold get_embedding, bind, openai_embeddings_create.
  destruct (embeddings_create _ _) as [[|v data]|e]; done.
Qed.

Lemma get_embedding_eq text w :
  get_embedding text w = ((get_embedding text w).1, asked text w).
Proof. rewrite <- get_embedding_world. by destruct (get_embedding text w). Qed.

Lemma upsert_one_Some w c p :
  notes_of w = Some c →
  upsert QDRANT_COLLECTION_NAME [p] w
  = if has_dim (vp_size (config c)) (ps_vector p)
    then (Ok tt,
          with_collections
            (<[QDRANT_COLLECTION_NAME :=
                 {| config := config c;
                    points := <[ps_id p := to_stored p]> (points c) |}]>
               (collections w)) w)
    else (Raise (ValueError "Vector dimension error"),
          with_collections
            (<[QDRANT_COLLECTION_NAME :=
                 {| config := config c;
                    points :=
                      <[ps_id p := without_vector (points c) p]> (points c) |}]>
               (collections w)) w).
Proof.
  intros H. unfold upsert.
  rewrite (bind_Ok _ _ _ _ _ (get_collection_Some _ _ _ H)). simpl.
  by destruct (has_dim _ _).
Qed.

(** ** [add_note_to_db], outcome by outcome *)

Lemma add_note_to_db_absent note_text w :
  notes_of w = None →
  add_note_to_db note_text w
  = (Raise (ValueError "Collection notes not found"), w).
Proof.
  intros H. unfold add_note_to_db.
  by rewrite (bind_Raise _ _ _ _ _ (qdrant_count_None _ _ H)).
Qed.

Lemma add_note_to_db_present note_text w c :
  notes_of w = Some c →
  add_note_to_db note_text w
  = match (get_embedding note_text w).1 with
    | Raise e => (Raise e, asked note_text w)
    | Ok v =>
        if has_dim (vp_size (config c)) v
        then (Ok tt,
              with_collections
                (<[QDRANT_COLLECTION_NAME :=
                     {| config := config c;
                        points :=
                          <[Z.of_nat (size (points c)) + 1
                            := note_point note_text v]> (points c) |}]>
                   (collections w)) (asked note_text w))
        else (Raise (ValueError "Vector dimension error"),
              with_collections
                (<[QDRANT_COLLECTION_NAME :=
                     {| config := config c;
                        points :=
                          <[Z.of_nat (size (points c)) + 1
                            := note_point note_text
                                 (default []
                                    (sp_vector
                                       <$> points c
                                           !! (Z.of_nat (size (points c)) + 1)))]>
                            (points c) |}]>
                   (collections w)) (asked note_text w))
    end.
Proof.
  intros H. unfold add_note_to_db.
  rewrite (bind_Ok _ _ _ _ _ (qdrant_count_Some _ _ _ H)).
  unfold bind at 1. rewrite (get_embedding_eq note_text w).
  destruct (get_embedding note_text w).1 as [v|e]; [|done].
  by rewrite (upsert_one_Some (asked note_text w) c).
Qed.

Lemma bind_world {A B} (c : M A) (k : A → M B) w w1 :
  (c w).2 = w1 → (∀ a, (k a w1).2 = w1) → (bind c k w).2 = w1.
Proof.
  intros Hc Hk. unfold bind. destruct (c w) as [[a|e] w']; simpl in Hc; subst w'; auto.
Qed.

Lemma scroll_world name limit w : (scroll name limit w).2 = w.
Proof.
  unfold scroll. apply bind_world; [apply get_collection_world | done].
Qed.

Lemma search_world name v limit w : (search name v limit w).2 = w.
Proof.
  unfold search. apply bind_world; [apply get_collection_world |].
  intros c. by destruct (has_dim _ _).
Qed.

(** ** [assure_db_collection_exists], outcome by outcome *)

Lemma assure_present w c :
  notes_of w = Some c →
  assure_db_collection_exists w
  = (Ok tt, {| collections := collections w;
               embedding_requests := embedding_requests w;
               stdout := stdout w ++ ["Kolekcja już istnieje"] |}).
Proof.
  unfold notes_of. intros H.
  unfold assure_db_collection_exists, bind, collection_exists.
  rewrite bool_decide_eq_true_2; [done | by rewrite H].
Qed.

Lemma assure_absent w :
  notes_of w = None →
  assure_db_collection_exists w
  = (Ok tt,
     {| collections :=
          <[QDRANT_COLLECTION_NAME :=
              {| config := {| vp_size := EMBEDDING_DIM; vp_distance := COSINE |};
                 points := ∅ |}]> (collections w);
        embedding_requests := embedding_requests w;
        stdout := stdout w ++ ["Tworzę kolekcję"] |}).
Proof.
  unfold notes_of. intros H.
  unfold assure_db_collection_exists, bind, collection_exists.
  rewrite bool_decide_eq_false_2; [| rewrite H; by intros [? ?]].
  simpl. unfold create_collection. simpl. by rewrite H.
Qed.

(** ** [list_notes_from_db] leaves the store alone *)

Lemma list_notes_browse_world query w :
  truthy query = false → (list_notes_from_db query w).2 = w.
Proof.
  intros Hq. unfold list_notes_from_db. rewrite Hq. simpl.
  apply bind_world; [apply scroll_world |].
  intros page. apply for_append_world. intros note w1.
  apply bind_world; [apply getitem_world | done].
Qed.

Lemma list_notes_search_world query w :
  truthy query = true →
  (list_notes_from_db query w).2 = asked (default "" query) w.
Proof.
  intros Hq. unfold list_notes_from_db. rewrite Hq. simpl.
  apply bind_world; [apply get_embedding_world |].
  intros v. apply bind_world; [apply search_world |].
  intros notes. apply for_append_world. intros note w1.
  apply bind_world; [apply getitem_world | done].
Qed.

Lemma list_notes_collections query w :
  collections (list_notes_from_db query w).2 = collections w.
Proof.
  destruct (truthy query) eqn:Hq.
  - by rewrite list_notes_search_world.
  - by rewrite list_notes_browse_world.
Qed.

(** ** The invariant of the store *)

Lemma store_ok_empty :
  store_ok {| config := {| vp_size := EMBEDDING_DIM; vp_distance := COSINE |};
              points := ∅ |}.
Proof.
  split; simpl; [done | |].
  - intros id. rewrite lookup_empty, map_size_empty. split; [by intros [? ?] | lia].
  - intros id p. by rewrite lookup_empty.
Qed.

Lemma store_ok_next_free c :
  store_ok c → points c !! (Z.of_nat (size (points c)) + 1) = None.
Proof.
  intros Hc. apply eq_None_not_Some. rewrite (ok_ids c Hc). lia.
Qed.

Lemma store_ok_insert c note_text v :
  store_ok c →
  store_ok {| config := config c;
              points := <[Z.of_nat (size (points c)) + 1
                          := note_point note_text v]> (points c) |}.
Proof.
  intros Hc. pose proof (store_ok_next_free c Hc) as Hfree.
  split; simpl.
  - apply Hc.
  - intros id. rewrite map_size_insert_None by done.
    rewrite lookup_insert. case_decide as Hid.
    + subst id. split; [lia | by eauto].
    + rewrite (ok_ids c Hc). lia.
  - intros id p. rewrite lookup_insert. case_decide.
    + intros [= <-]. simpl. rewrite lookup_singleton_eq. by eauto.
    + apply Hc.
Qed.

Lemma perform_ok r w : world_ok w → world_ok (perform r w).
Proof.
  intros Hw. destruct r as [|note_text|query]; simpl.
  - destruct (notes_of w) as [c|] eqn:Hc.
    + rewrite (assure_present w c Hc). exact Hw.
    + rewrite (assure_absent w Hc). intros c'. unfold notes_of. simpl.
      rewrite lookup_insert_eq. intros [= <-]. apply store_ok_empty.
  - destruct (notes_of w) as [c|] eqn:Hc.
    + rewrite (add_note_to_db_present note_text w c Hc).
      pose proof (Hw c Hc) as Hok.
      destruct (get_embedding note_text w).1 as [v|e]; [|exact Hw].
      destruct (has_dim _ _);
        intros c'; unfold notes_of; simpl; rewrite lookup_insert_eq;
        intros [= <-]; by apply store_ok_insert.
    + rewrite (add_note_to_db_absent note_text w Hc). exact Hw.
  - intros c. unfold notes_of. rewrite list_notes_collections. apply Hw.
Qed.

Lemma session_snoc rs r : session (rs ++ [r]) = perform r (session rs).
Proof. unfold session. by rewrite foldl_app. Qed.

Lemma session_ok rs : world_ok (session rs).
Proof.
  induction rs as [|r rs IH] using rev_ind.
  - intros c. unfold notes_of, session. simpl. by rewrite lookup_empty.
  - rewrite session_snoc. by apply perform_ok.
Qed.

(** ** Adding a note *)

(** C1.  In every session of sequential calls, once the collection is
    there and the embedding call answers with a vector of the
    configured dimension, [add_note_to_db] reads the exact count [n],
    returns normally, has written exactly one record, under the id
    [n + 1] that was free before, whose payload holds the text under
    ["text"], and the count read afterwards is [n + 1]. *)
Theorem add_note_inserts_one_record
    (calls : list request) (note_text : string) (c : Collection) (v : list Q) :
  notes_of (session calls) = Some c →
  (get_embedding note_text (session calls)).1 = Ok v →
  has_dim EMBEDDING_DIM v = true →
  let w := session calls in
  let n := Z.of_nat (size (points c)) in
  (qdrant_count QDRANT_COLLECTION_NAME true w).1 = Ok {| count := n |} ∧
  points c !! (n + 1) = None ∧
  ∃ w' c',
    add_note_to_db note_text w = (Ok tt, w') ∧
    notes_of w' = Some c' ∧
    config c' = config c ∧
    points c' = <[n + 1 := note_point note_text v]> (points c) ∧
    sp_payload (note_point note_text v) !! "text" = Some note_text ∧
    (qdrant_count QDRANT_COLLECTION_NAME true w').1 = Ok {| count := n + 1 |}.
Proof.
  intros Hc Hv Hdim w n.
  pose proof (session_ok calls c Hc) as Hok.
  pose proof (store_ok_next_free c Hok) as Hfree.
  split; [by rewrite (qdrant_count_Some w c true Hc) |].
  split; [done |].
  set (c' := {| config := {| vp_size := EMBEDDING_DIM; vp_distance := COSINE |};
                points := <[n + 1 := note_point note_text v]> (points c) |}).
  set (w' := with_collections (<[QDRANT_COLLECTION_NAME := c']> (collections w))
                              (asked note_text w)).
  assert (Hc' : notes_of w' = Some c').
  { unfold notes_of, w'. simpl. by rewrite lookup_insert_eq. }
  exists w', c'. split.
  { rewrite (add_note_to_db_present note_text w c Hc).
    unfold w in *. rewrite Hv, (ok_config c Hok). simpl. by rewrite Hdim. }
  split; [exact Hc' |].
  split; [simpl; by rewrite (ok_config c Hok) |].
  split; [done |].
  split; [simpl; by rewrite lookup_singleton_eq |].
  rewrite (qdrant_count_Some w' c' true Hc'). simpl.
  rewrite map_size_insert_None by done. do 2 f_equal. lia.
Qed.

(** ** Creating the collection *)

(** C3.  In every world [assure_db_collection_exists] returns normally.
    When the collection exists the client's collections are left as
    they were, configuration included; when it does not, it is created
    empty with dimension 3072 and cosine distance.  A second call in a
    row returns normally too and leaves the collections of the first
    call unchanged. *)
Theorem assure_db_collection_exists_idempotent (w : World) :
  let w1 := (assure_db_collection_exists w).2 in
  let w2 := (assure_db_collection_exists w1).2 in
  (assure_db_collection_exists w).1 = Ok tt ∧
  match notes_of w with
  | Some c => collections w1 = collections w
  | None =>
      collections w1
      = <[QDRANT_COLLECTION_NAME :=
            {| config := {| vp_size := 3072; vp_distance := COSINE |};
               points := ∅ |}]> (collections w)
  end ∧
  (assure_db_collection_exists w1).1 = Ok tt ∧
  collections w2 = collections w1 ∧
  (config <$> notes_of w2) = (config <$> notes_of w1).
Proof.
  intros w1 w2.
  assert (H1 : ∀ w0, (assure_db_collection_exists w0).1 = Ok tt).
  { intros w0. destruct (notes_of w0) as [c|] eqn:Hc.
    - by rewrite (assure_present w0 c Hc).
    - by rewrite (assure_absent w0 Hc). }
  assert (H2 : ∀ w0 c, notes_of w0 = Some c →
               collections (assure_db_collection_exists w0).2 = collections w0).
  { intros w0 c Hc. by rewrite (assure_present w0 c Hc). }
  assert (H3 : is_Some (notes_of w1)).
  { subst w1. destruct (notes_of w) as [c|] eqn:Hc.
    - rewrite (assure_present w c Hc). unfold notes_of in *. simpl. by rewrite Hc.
    - rewrite (assure_absent w Hc). unfold notes_of. simpl.
      by rewrite lookup_insert_eq. }
  destruct H3 as [c1 Hc1].
  assert (H4 : collections w2 = collections w1) by (by apply (H2 w1 c1)).
  repeat split; try done.
  - destruct (notes_of w) as [c|] eqn:Hc.
    + by apply (H2 w c).
    + subst w1. by rewrite (assure_absent w Hc).
  - unfold notes_of. by rewrite H4.
Qed.

(** ** Failures *)


(** ** Scrolling and searching a collection *)

Global Instance higher_first_trans : Transitive higher_first.
Proof. intros a b c Hab Hbc. unfold higher_first in *. by eapply Qle_trans. Qed.

Global Instance higher_first_total : Total higher_first.
Proof.
  intros a b. unfold higher_first.
  destruct (Qlt_le_dec (hit_score a) (hit_score b)) as [H|H];
    [right; by apply Qlt_le_weak | by left].
Qed.

Lemma in_scroll_order_lookup c ip :
  ip ∈ in_scroll_order c ↔ points c !! ip.1 = Some ip.2.
Proof.
  unfold in_scroll_order. rewrite merge_sort_Permutation.
  destruct ip as [id p]. apply elem_of_map_to_list.
Qed.

Lemma in_scroll_order_length c :
  length (in_scroll_order c) = size (points c).
Proof.
  unfold in_scroll_order. rewrite merge_sort_Permutation.
  apply length_map_to_list.
Qed.

Lemma scroll_Some w c limit :
  notes_of w = Some c →
  scroll QDRANT_COLLECTION_NAME limit w
  = (Ok (to_record <$> take (Z.to_nat limit) (in_scroll_order c),
         fst <$> in_scroll_order c !! Z.to_nat limit), w).
Proof.
  intros H. unfold scroll.
  by rewrite (bind_Ok _ _ _ _ _ (get_collection_Some _ _ _ H)).
Qed.

Lemma search_cosine w c v limit :
  notes_of w = Some c →
  config c = {| vp_size := EMBEDDING_DIM; vp_distance := COSINE |} →
  has_dim EMBEDDING_DIM v = true →
  search QDRANT_COLLECTION_NAME v limit w
  = (Ok (take (Z.to_nat limit)
           (merge_sort higher_first (to_scored COSINE v <$> in_scroll_order c))),
     w).
Proof.
  intros H Hcfg Hv. unfold search.
  rewrite (bind_Ok _ _ _ _ _ (get_collection_Some _ _ _ H)).
  rewrite Hcfg. simpl. by rewrite Hv.
Qed.

(** ** [list_notes_from_db], branch by branch *)

Lemma browse_entry_text c n note :
  store_ok c →
  note ∈ to_record <$> take n (in_scroll_order c) →
  ∃ id p, points c !! id = Some p
          ∧ rec_id note = id
          ∧ rec_payload note = sp_payload p
          ∧ sp_payload p !! "text" = Some (text (browse_entry note)).
Proof.
  intros Hc (ip & -> & Hip)%list_elem_of_fmap.
  apply subseteq_take, in_scroll_order_lookup in Hip.
  exists ip.1, ip.2. split; [done |]. split; [done |]. split; [done |].
  destruct (ok_text c Hc _ _ Hip) as [t Ht]. simpl. by rewrite Ht.
Qed.

Lemma list_notes_browse query w c :
  truthy query = false →
  notes_of w = Some c → store_ok c →
  list_notes_from_db query w
  = (Ok (browse_entry <$> (to_record <$> take 12 (in_scroll_order c))), w).
Proof.
  intros Hq Hw Hc. unfold list_notes_from_db. rewrite Hq. simpl.
  rewrite (bind_Ok _ _ _ _ _ (scroll_Some w c 12 Hw)). simpl.
  apply for_append_pure. intros note Hnote.
  change (Pos.to_nat 12) with 12%nat in Hnote.
  destruct (browse_entry_text c 12 note Hc Hnote) as (id & p & _ & _ & Hpay & Ht).
  rewrite <- Hpay in Ht.
  rewrite (bind_Ok _ _ _ _ _ (getitem_Some _ _ _ w Ht)). done.
Qed.

Lemma search_entry_text c v n hit :
  store_ok c →
  hit ∈ take n (merge_sort higher_first (to_scored COSINE v <$> in_scroll_order c)) →
  ∃ id p, points c !! id = Some p
          ∧ hit = to_scored COSINE v (id, p)
          ∧ sp_payload p !! "text" = Some (text (search_entry hit)).
Proof.
  intros Hc Hhit. apply subseteq_take in Hhit.
  rewrite merge_sort_Permutation in Hhit.
  apply list_elem_of_fmap in Hhit as (ip & -> & Hip).
  apply in_scroll_order_lookup in Hip.
  exists ip.1, ip.2. split; [done |]. split; [by destruct ip |].
  destruct (ok_text c Hc _ _ Hip) as [t Ht]. simpl. by rewrite Ht.
Qed.

Lemma list_notes_search query w c v :
  query ≠ "" →
  notes_of w = Some c → store_ok c →
  (get_embedding query w).1 = Ok v →
  has_dim EMBEDDING_DIM v = true →
  list_notes_from_db (Some query) w
  = (Ok (search_entry
           <$> take 10 (merge_sort higher_first
                          (to_scored COSINE v <$> in_scroll_order c))),
     asked query w).
Proof.
  intros Hq Hw Hc Hemb Hv. unfold list_notes_from_db.
  assert (truthy (Some query) = true) as ->.
  { simpl. by rewrite bool_decide_eq_false_2. }
  simpl. unfold bind at 1. rewrite (get_embedding_eq query w), Hemb.
  assert (Hw1 : notes_of (asked query w) = Some c) by done.
  rewrite (bind_Ok _ _ _ _ _
             (search_cosine (asked query w) c v 10 Hw1 (ok_config c Hc) Hv)).
  apply for_append_pure. intros hit Hhit.
  change (Z.to_nat 10) with 10%nat in Hhit.
  destruct (search_entry_text c v 10 hit Hc Hhit) as (id & p & _ & -> & Ht).
  simpl in Ht.
  rewrite (bind_Ok _ _ _ _ _ (getitem_Some _ _ _ (asked query w) Ht)). done.
Qed.

(** ** Browsing and searching *)

Lemma browse_entries_of_page c :
  store_ok c →
  Forall2 (λ note r, rec_payload note !! "text" = Some (text r) ∧ score r = None)
    (to_record <$> take 12 (in_scroll_order c))
    (browse_entry <$> (to_record <$> take 12 (in_scroll_order c))).
Proof.
  intros Hc. apply Forall2_fmap_r, Forall_Forall2_diag, Forall_forall.
  intros note Hnote.
  destruct (browse_entry_text c 12 note Hc Hnote) as (id & p & _ & _ & -> & Ht).
  done.
Qed.

Lemma scroll_page_length name limit w page w' :
  scroll name limit w = (Ok page, w') → (length page.1 ≤ Z.to_nat limit)%nat.
Proof.
  unfold scroll. intros (c & w1 & _ & [= <- _])%bind_Ok_inv. simpl.
  rewrite length_fmap, length_take. lia.
Qed.

Lemma browse_any_world query w rs w' :
  truthy query = false →
  list_notes_from_db query w = (Ok rs, w') →
  w' = w ∧ (length rs ≤ 12)%nat ∧ Forall (λ r, score r = None) rs.
Proof.
  intros Hq Hlist. split.
  { rewrite <- (list_notes_browse_world query w Hq). by rewrite Hlist. }
  unfold list_notes_from_db in Hlist. rewrite Hq in Hlist. simpl in Hlist.
  apply bind_Ok_inv in Hlist as (page & w1 & Hpage & Hloop).
  apply scroll_page_length in Hpage.
  apply (for_append_Ok _ (λ _ r, score r = None)) in Hloop.
  - split.
    + rewrite <- (Forall2_length _ _ _ Hloop). exact Hpage.
    + eapply Forall2_Forall_r; [exact Hloop |]. apply Forall_forall. auto.
  - intros note w2 r w3 (t & w4 & _ & [= <- _])%bind_Ok_inv. done.
Qed.

(** C5.  In whatever world [list_notes_from_db()] returns, it returns at
    most 12 entries, each with score [None], and the world is as before.
    In every session in which the collection exists it does return;
    its result has the length of the scrolled page, which is the smaller
    of 12 and the number of stored notes, and lists the records of that
    page in the order the scroll yields them, each with its stored text
    and with score [None]. *)
Theorem browse_returns_scrolled_page (calls : list request) (c : Collection) :
  notes_of (session calls) = Some c →
  let w := session calls in
  (∀ w0 rs0 w0',
     list_notes_from_db None w0 = (Ok rs0, w0') →
     w0' = w0 ∧ (length rs0 ≤ 12)%nat ∧ Forall (λ r, score r = None) rs0) ∧
  ∃ page next rs,
    scroll QDRANT_COLLECTION_NAME 12 w = (Ok (page, next), w) ∧
    list_notes_from_db None w = (Ok rs, w) ∧
    length rs = Nat.min 12 (size (points c)) ∧
    (length rs ≤ 12)%nat ∧
    Forall2 (λ note r, rec_payload note !! "text" = Some (text r) ∧ score r = None)
            page rs ∧
    Forall (λ r, score r = None) rs.
Proof.
  intros Hw w. pose proof (session_ok calls c Hw) as Hc.
  split; [intros w0 rs0 w0'; by apply browse_any_world |].
  eexists _, _, _. split; [exact (scroll_Some w c 12 Hw) |].
  split; [exact (list_notes_browse None w c eq_refl Hw Hc) |].
  assert (Hlen : length (browse_entry <$> (to_record <$> take 12 (in_scroll_order c)))
                 = Nat.min 12 (size (points c))).
  { by rewrite !length_fmap, length_take, in_scroll_order_length. }
  change (Z.to_nat 12) with 12%nat.
  split; [exact Hlen |]. split; [rewrite Hlen; lia |].
  split; [by apply browse_entries_of_page |].
  apply Forall_fmap, Forall_forall. done.
Qed.

(** C10.  With [None] or the empty string as query, [list_notes_from_db]
    is the browse branch in every world: it does what the call without a
    query does, and the list of requests received by the embeddings
    endpoint is as before.  In every session in which the collection
    exists it returns normally, with at most 12 entries, those of the
    scrolled page, each with score [None]. *)
Theorem empty_query_browses
    (calls : list request) (query : option string) (c : Collection) :
  query = None ∨ query = Some "" →
  notes_of (session calls) = Some c →
  let w := session calls in
  (∀ w0, list_notes_from_db query w0 = list_notes_from_db None w0
         ∧ (list_notes_from_db query w0).2 = w0
         ∧ embedding_requests (list_notes_from_db query w0).2
           = embedding_requests w0) ∧
  ∃ page next rs,
    scroll QDRANT_COLLECTION_NAME 12 w = (Ok (page, next), w) ∧
    list_notes_from_db query w = (Ok rs, w) ∧
    (length rs ≤ 12)%nat ∧
    Forall2 (λ note r, rec_payload note !! "text" = Some (text r) ∧ score r = None)
            page rs ∧
    Forall (λ r, score r = None) rs.
Proof.
  intros Hq Hw w. pose proof (session_ok calls c Hw) as Hc.
  assert (Hfalsy : truthy query = false) by (by destruct Hq as [-> | ->]).
  split.
  - intros w0. split; [by destruct Hq as [-> | ->] |].
    by rewrite (list_notes_browse_world query w0 Hfalsy).
  - eexists _, _, _. split; [exact (scroll_Some w c 12 Hw) |].
    split; [exact (list_notes_browse query w c Hfalsy Hw Hc) |].
    change (Z.to_nat 12) with 12%nat.
    split; [rewrite !length_fmap, length_take; lia |].
    split; [by apply browse_entries_of_page |].
    apply Forall_fmap, Forall_forall. done.
Qed.

(** C2.  In every session in which the collection exists, for a non-empty
    query whose embedding call answers with a vector of the configured
    dimension, [list_notes_from_db(query)] returns normally with at most
    10 results (the smaller of 10 and the number of stored notes); every
    earlier result has a score at least that of every later one; and
    each result carries the text of a stored note together with the
    cosine score of that note's vector against the query vector. *)
Theorem search_returns_ranked_results
    (calls : list request) (query : string) (c : Collection) (v : list Q) :
  query ≠ "" →
  notes_of (session calls) = Some c →
  (get_embedding query (session calls)).1 = Ok v →
  has_dim EMBEDDING_DIM v = true →
  ∃ rs w',
    list_notes_from_db (Some query) (session calls) = (Ok rs, w') ∧
    length rs = Nat.min 10 (size (points c)) ∧
    (length rs ≤ 10)%nat ∧
    StronglySorted best_first rs ∧
    Forall (λ r, ∃ id p,
                points c !! id = Some p
                ∧ sp_payload p !! "text" = Some (text r)
                ∧ score r = Some (calculate_distance COSINE v (sp_vector p)))
           rs.
Proof.
  intros Hq Hw Hemb Hv. pose proof (session_ok calls c Hw) as Hc.
  eexists _, _.
  split; [exact (list_notes_search query _ c v Hq Hw Hc Hemb Hv) |].
  set (ranked := merge_sort higher_first (to_scored COSINE v <$> in_scroll_order c)).
  assert (Hlen : length (search_entry <$> take 10 ranked)
                 = Nat.min 10 (size (points c))).
  { rewrite length_fmap, length_take. unfold ranked.
    by rewrite merge_sort_Permutation, length_fmap, in_scroll_order_length. }
  split; [exact Hlen |]. split; [rewrite Hlen; lia |]. split.
  - apply (StronglySorted_fmap _ higher_first); [by intros x y |].
    apply (StronglySorted_app_1_l _ _ (drop 10 ranked)).
    rewrite take_drop. apply StronglySorted_merge_sort; apply _.
  - apply Forall_fmap, Forall_forall. intros hit Hhit.
    destruct (search_entry_text c v 10 hit Hc Hhit) as (id & p & Hp & -> & Ht).
    exists id, p. done.
Qed.

(** C7.  On the index [assure_db_collection_exists] has just created,
    a search with a non-empty query whose embedding call answers with a
    vector of the configured dimension returns the empty list, not an
    exception. *)
Theorem search_on_fresh_index_is_empty
    (w : World) (query : string) (v : list Q) :
  notes_of w = None →
  query ≠ "" →
  let w1 := (assure_db_collection_exists w).2 in
  (get_embedding query w1).1 = Ok v →
  has_dim EMBEDDING_DIM v = true →
  (qdrant_count QDRANT_COLLECTION_NAME true w1).1 = Ok {| count := 0 |} ∧
  list_notes_from_db (Some query) w1 = (Ok [], asked query w1).
Proof.
  intros Hw Hq w1 Hemb Hv.
  set (c := {| config := {| vp_size := EMBEDDING_DIM; vp_distance := COSINE |};
               points := ∅ |}).
  assert (Hw1 : notes_of w1 = Some c).
  { unfold w1. rewrite (assure_absent w Hw). unfold notes_of. simpl.
    by rewrite lookup_insert_eq. }
  split; [by rewrite (qdrant_count_Some w1 c true Hw1) |].
  rewrite (list_notes_search query w1 c v Hq Hw1 store_ok_empty Hemb Hv).
  unfold in_scroll_order. simpl. by rewrite map_to_list_empty.
Qed.

(** C6, as the code has it.  In every session in which the collection
    exists and holds fewer than 12 notes, once the embedding call answers
    with a vector of the configured dimension, [add_note_to_db] returns
    normally and the listing that follows contains an entry with the
    text just added and score [None]. *)
Theorem added_note_is_listed_while_page_has_room
    (calls : list request) (note_text : string) (c : Collection) (v : list Q) :
  notes_of (session calls) = Some c →
  (size (points c) < 12)%nat →
  (get_embedding note_text (session calls)).1 = Ok v →
  has_dim EMBEDDING_DIM v = true →
  ∃ w1 rs,
    add_note_to_db note_text (session calls) = (Ok tt, w1) ∧
    list_notes_from_db None w1 = (Ok rs, w1) ∧
    {| text := note_text; score := None |} ∈ rs.
Proof.
  intros Hw Hsize Hemb Hv. pose proof (session_ok calls c Hw) as Hc.
  pose proof (store_ok_next_free c Hc) as Hfree.
  set (n := Z.of_nat (size (points c))) in *.
  set (c' := {| config := config c;
                points := <[n + 1 := note_point note_text v]> (points c) |}).
  set (w1 := with_collections (<[QDRANT_COLLECTION_NAME := c']>
                                 (collections (session calls)))
                              (asked note_text (session calls))).
  assert (Hadd : add_note_to_db note_text (session calls) = (Ok tt, w1)).
  { assert (Hv' : has_dim (vp_size (config c)) v = true)
      by (by rewrite (ok_config c Hc)).
    by rewrite (add_note_to_db_present note_text _ c Hw), Hemb, Hv'. }
  assert (Hw1 : notes_of w1 = Some c').
  { unfold notes_of, w1. simpl. by rewrite lookup_insert_eq. }
  assert (Hc' : store_ok c') by (by apply store_ok_insert).
  exists w1, (browse_entry <$> (to_record <$> take 12 (in_scroll_order c'))).
  split; [exact Hadd |].
  split; [exact (list_notes_browse None w1 c' eq_refl Hw1 Hc') |].
  apply list_elem_of_fmap.
  exists (to_record (n + 1, note_point note_text v)). split.
  - unfold browse_entry. simpl. by rewrite lookup_singleton_eq.
  - apply list_elem_of_fmap. eexists. split; [done |].
    rewrite take_ge.
    + apply in_scroll_order_lookup. simpl. by rewrite lookup_insert_eq.
    + rewrite in_scroll_order_length. simpl.
      rewrite map_size_insert_None by done. lia.
Qed.

(** ** The ids of the stored notes *)

Lemma add_note_to_db_outcome note_text w c :
  notes_of w = Some c → store_ok c →
  (∃ e, (add_note_to_db note_text w).1 = Raise e
        ∧ (get_embedding note_text w).1 = Raise e
        ∧ notes_of (add_note_to_db note_text w).2 = Some c)
  ∨ (∃ v, (get_embedding note_text w).1 = Ok v
          ∧ (add_note_to_db note_text w).1
            = (if has_dim EMBEDDING_DIM v then Ok tt
               else Raise (ValueError "Vector dimension error"))
          ∧ notes_of (add_note_to_db note_text w).2
            = Some {| config := config c;
                      points :=
                        <[Z.of_nat (size (points c)) + 1
                          := note_point note_text
                               (if has_dim EMBEDDING_DIM v then v else [])]>
                          (points c) |}).
Proof.
  intros Hw Hc. rewrite (add_note_to_db_present note_text w c Hw).
  destruct (get_embedding note_text w).1 as [v|e]; [| left; by exists e].
  rewrite (ok_config c Hc), (store_ok_next_free c Hc). simpl.
  right. exists v. split; [done |].
  destruct (has_dim EMBEDDING_DIM v); (split; [done |]);
    unfold notes_of; simpl; by rewrite lookup_insert_eq.
Qed.

Lemma add_all_ids texts : ∀ w c,
  notes_of w = Some c → store_ok c →
  ∃ c', notes_of (add_all texts w).2 = Some c'
        ∧ store_ok c'
        ∧ points c ⊆ points c'
        ∧ (size (points c') ≤ size (points c) + length texts)%nat
        ∧ Forall (λ it, Z.of_nat (size (points c)) < it.1 ∧ stored_under c' it)
                 (add_all texts w).1
        ∧ StronglySorted Z.lt (add_all texts w).1.*1
        ∧ (all_embedded texts w = true →
           (add_all texts w).1
           = zip (seqZ (Z.of_nat (size (points c)) + 1)
                       (Z.of_nat (length texts))) texts
           ∧ size (points c') = (size (points c) + length texts)%nat).
Proof.
  induction texts as [|t ts IH]; intros w c Hw Hc.
  - exists c. simpl. split; [done |]. split; [done |]. split; [done |].
    split; [lia |]. split; [constructor |]. split; [constructor |].
    intros _. split; [done | lia].
  - simpl. rewrite (qdrant_count_Some w c true Hw). simpl.
    pose proof (store_ok_next_free c Hc) as Hfree.
    destruct (add_note_to_db_outcome t w c Hw Hc)
      as [(e & Hr & He & Hw1) | (v & He & Hr & Hw1)]; rewrite Hr, He.
    + destruct (IH _ c Hw1 Hc) as (c' & ? & ? & ? & ? & ? & ? & ?).
      exists c'. simpl. split; [done |]. split; [done |]. split; [done |].
      split; [lia |]. done.
    + set (c1 := {| config := config c;
                    points :=
                      <[Z.of_nat (size (points c)) + 1
                        := note_point t (if has_dim EMBEDDING_DIM v then v else [])]>
                        (points c) |}) in *.
      assert (Hc1 : store_ok c1) by (by apply store_ok_insert).
      assert (Hsize : size (points c1) = S (size (points c)))
        by (by apply map_size_insert_None).
      assert (Hsub1 : points c ⊆ points c1) by (by apply insert_subseteq).
      destruct (IH _ c1 Hw1 Hc1)
        as (c' & Hw' & Hc' & Hsub & Hsz & Hst & Hsorted & Hall).
      assert (Hrest : Forall (λ it, Z.of_nat (size (points c)) < it.1
                                    ∧ stored_under c' it)
                             (add_all ts (add_note_to_db t w).2).1).
      { eapply Forall_impl; [exact Hst |]. intros it [Hlt ?]. split; [lia | done]. }
      exists c'. split; [done |]. split; [done |].
      split; [by etrans |]. split; [lia |].
      destruct (has_dim EMBEDDING_DIM v) eqn:Hv; csimpl.
      * split; [| split].
        -- constructor; [| done]. split; [simpl; lia |].
           exists (note_point t v). split.
           ++ eapply lookup_weaken; [| exact Hsub]. simpl. by rewrite lookup_insert_eq.
           ++ simpl. by rewrite lookup_singleton_eq.
        -- constructor; [done |]. apply Forall_fmap.
           eapply Forall_impl; [exact Hst |]. intros it [Hlt _]. simpl. lia.
        -- intros Hts. destruct (Hall Hts) as [Hassigned Hsz'].
           split; [| lia].
           rewrite (seqZ_cons (Z.of_nat (size (points c)) + 1)) by lia.
           simpl. f_equal. rewrite Hassigned, Hsize. do 2 f_equal; lia.
      * split; [done |]. split; [done |]. intros [=].
Qed.

(** C8.  Starting from a store that was just created, call
    [add_note_to_db] on any texts, one after the other, and record for
    each call that returns the id it computed, its count plus one.
    Whatever the embedding calls answer, the ids of the store are
    exactly 1 up to its count, which is at most the number of calls;
    the ids recorded are positive and strictly increasing, so pairwise
    distinct, and each still holds the text it was given.  When every
    embedding call answers with a vector of the configured dimension,
    every call returns: the [i]-th text gets the id [i], the ids are
    1, 2, ..., n for the n texts, the store holds exactly n notes and
    holds them exactly under these ids. *)
Theorem stored_ids_are_one_to_n (texts : list string) :
  let w0 := (assure_db_collection_exists fresh_world).2 in
  let assigned := (add_all texts w0).1 in
  let n := Z.of_nat (length texts) in
  ∃ c, notes_of (add_all texts w0).2 = Some c ∧
       (∀ id, is_Some (points c !! id) ↔ 1 ≤ id ≤ Z.of_nat (size (points c))) ∧
       (size (points c) ≤ length texts)%nat ∧
       Forall (λ id, 0 < id) assigned.*1 ∧
       StronglySorted Z.lt assigned.*1 ∧
       NoDup assigned.*1 ∧
       Forall (stored_under c) assigned ∧
       (all_embedded texts w0 = true →
        assigned = zip (seqZ 1 n) texts ∧
        assigned.*1 = seqZ 1 n ∧
        assigned.*2 = texts ∧
        size (points c) = length texts ∧
        (∀ id, is_Some (points c !! id) ↔ id ∈ assigned.*1)).
Proof.
  intros w0 assigned n.
  set (c0 := {| config := {| vp_size := EMBEDDING_DIM; vp_distance := COSINE |};
                points := ∅ |}).
  assert (Hw0 : notes_of w0 = Some c0) by done.
  destruct (add_all_ids texts w0 c0 Hw0 store_ok_empty)
    as (c & Hw & Hc & _ & Hsz & Hst & Hsorted & Hall).
  fold assigned in Hst, Hsorted, Hall. simpl in Hsz, Hst, Hall.
  rewrite map_size_empty in Hsz, Hst, Hall. simpl in Hsz, Hst, Hall.
  exists c. split; [done |]. split; [exact (ok_ids c Hc) |]. split; [done |].
  split; [| split; [| split; [| split]]].
  - apply Forall_fmap. eapply Forall_impl; [exact Hst |]. intros it [? _]. simpl. lia.
  - done.
  - clear -Hsorted.
    induction Hsorted as [|id ids Hss IH Hhd]; [constructor |].
    constructor; [| exact IH].
    intros Hin. rewrite Forall_forall in Hhd. specialize (Hhd id Hin). lia.
  - eapply Forall_impl; [exact Hst |]. by intros it [_ ?].
  - intros Hemb. destruct (Hall Hemb) as [Hassigned Hsize].
    fold n in Hassigned. change (Z.of_nat 0 + 1) with 1 in Hassigned.
    assert (Hlen : length (seqZ 1 n) = length texts)
      by (rewrite length_seqZ; lia).
    assert (Hids : assigned.*1 = seqZ 1 n)
      by (rewrite Hassigned; apply fst_zip; by rewrite Hlen).
    split; [done |]. split; [done |].
    split; [rewrite Hassigned; apply snd_zip; by rewrite Hlen |].
    split; [done |].
    intros id. rewrite (ok_ids c Hc), Hids, elem_of_seqZ, Hsize. lia.
Qed.

(** ** Two calls of [add_note_to_db] at once *)

Lemma add_step_count note_text w c :
  notes_of w = Some c →
  add_step (AtCount note_text) w
  = (AtEmbedding note_text {| count := Z.of_nat (size (points c)) |}, w).
Proof. intros Hw. simpl. by rewrite (qdrant_count_Some w c true Hw). Qed.

Lemma add_step_embedding note_text points_count w :
  add_step (AtEmbedding note_text points_count) w
  = (match (get_embedding note_text w).1 with
     | Ok vector => AtUpsert note_text points_count vector
     | Raise e => Raised e
     end, asked note_text w).
Proof.
  simpl. rewrite (get_embedding_eq note_text w).
  by destruct (get_embedding note_text w).1.
Qed.

Lemma add_step_upsert note_text points_count vector w c :
  notes_of w = Some c →
  add_step (AtUpsert note_text points_count vector) w
  = if has_dim (vp_size (config c)) vector
    then (Returned,
          with_collections
            (<[QDRANT_COLLECTION_NAME :=
                 {| config := config c;
                    points := <[count points_count + 1
                                := note_point note_text vector]> (points c) |}]>
               (collections w)) w)
    else (Raised (ValueError "Vector dimension error"),
          with_collections
            (<[QDRANT_COLLECTION_NAME :=
                 {| config := config c;
                    points :=
                      <[count points_count + 1
                        := note_point note_text
                             (default []
                                (sp_vector
                                   <$> points c !! (count points_count + 1)))]>
                        (points c) |}]>
               (collections w)) w).
Proof.
  intros Hw. simpl. rewrite (upsert_one_Some w c _ Hw). simpl.
  by destruct (has_dim _ _).
Qed.

(** A call that runs its three collaborator calls without the other one
    moving is the function itself. *)
Lemma add_steps_alone note_text other w :
  interleave [First; First; First] (AtCount note_text) other w
  = (match (add_note_to_db note_text w).1 with
     | Ok _ => Returned
     | Raise e => Raised e
     end, other, (add_note_to_db note_text w).2).
Proof.
  cbn [interleave]. destruct (notes_of w) as [c|] eqn:Hw.
  - rewrite (add_note_to_db_present note_text w c Hw).
    rewrite (add_step_count note_text w c Hw). cbn [fst snd].
    rewrite add_step_embedding. cbn [fst snd].
    destruct (get_embedding note_text w).1 as [v|e]; [| done].
    assert (Hw1 : notes_of (asked note_text w) = Some c) by done.
    rewrite (add_step_upsert _ _ _ _ c Hw1). cbn [count].
    by destruct (has_dim _ _).
  - rewrite (add_note_to_db_absent note_text w Hw). simpl.
    by rewrite (qdrant_count_None w true Hw).
Qed.

(** C9.  In every session in which the collection exists, take two calls
    of [add_note_to_db] whose embedding calls answer with vectors of the
    configured dimension, and let them alternate collaborator call by
    collaborator call.  Both read the same count [n]; both return
    normally; and the store ends with one more note, not two: the id
    [n + 1] holds the text of the second call, and the note of the first
    call has been overwritten. *)
Theorem concurrent_adds_share_an_id
    (calls : list request) (text1 text2 : string) (c : Collection)
    (v1 v2 : list Q) :
  notes_of (session calls) = Some c →
  (get_embedding text1 (session calls)).1 = Ok v1 →
  has_dim EMBEDDING_DIM v1 = true →
  (get_embedding text2 (asked text1 (session calls))).1 = Ok v2 →
  has_dim EMBEDDING_DIM v2 = true →
  let w := session calls in
  let n := Z.of_nat (size (points c)) in
  ∃ schedule w' c',
    interleave (take 2 schedule) (AtCount text1) (AtCount text2) w
    = (AtEmbedding text1 {| count := n |},
       AtEmbedding text2 {| count := n |}, w) ∧
    interleave (take 4 schedule) (AtCount text1) (AtCount text2) w
    = (AtUpsert text1 {| count := n |} v1,
       AtUpsert text2 {| count := n |} v2, asked text2 (asked text1 w)) ∧
    interleave schedule (AtCount text1) (AtCount text2) w
    = (Returned, Returned, w') ∧
    notes_of w' = Some c' ∧
    points c' = <[n + 1 := note_point text2 v2]> (points c) ∧
    size (points c') = S (size (points c)).
Proof.
  intros Hw Hemb1 Hv1 Hemb2 Hv2 w n.
  pose proof (session_ok calls c Hw) as Hc.
  pose proof (store_ok_next_free c Hc) as Hfree.
  assert (Hd1 : has_dim (vp_size (config c)) v1 = true)
    by (by rewrite (ok_config c Hc)).
  assert (Hd2 : has_dim (vp_size (config c)) v2 = true)
    by (by rewrite (ok_config c Hc)).
  set (w2 := asked text2 (asked text1 w)).
  set (c1 := {| config := config c;
                points := <[n + 1 := note_point text1 v1]> (points c) |}).
  set (w3 := with_collections (<[QDRANT_COLLECTION_NAME := c1]> (collections w2)) w2).
  set (c2 := {| config := config c;
                points := <[n + 1 := note_point text2 v2]> (points c1) |}).
  set (w4 := with_collections (<[QDRANT_COLLECTION_NAME := c2]> (collections w3)) w3).
  assert (Hw1 : notes_of (asked text1 w) = Some c) by done.
  assert (Hw2 : notes_of w2 = Some c) by done.
  assert (Hw3 : notes_of w3 = Some c1).
  { unfold notes_of, w3. simpl. by rewrite lookup_insert_eq. }
  assert (S1 : add_step (AtCount text1) w = (AtEmbedding text1 {| count := n |}, w))
    by exact (add_step_count text1 w c Hw).
  assert (S2 : add_step (AtCount text2) w = (AtEmbedding text2 {| count := n |}, w))
    by exact (add_step_count text2 w c Hw).
  assert (S3 : add_step (AtEmbedding text1 {| count := n |}) w
               = (AtUpsert text1 {| count := n |} v1, asked text1 w)).
  { rewrite add_step_embedding. unfold w. by rewrite Hemb1. }
  assert (S4 : add_step (AtEmbedding text2 {| count := n |}) (asked text1 w)
               = (AtUpsert text2 {| count := n |} v2, w2)).
  { rewrite add_step_embedding. unfold w. by rewrite Hemb2. }
  assert (S5 : add_step (AtUpsert text1 {| count := n |} v1) w2 = (Returned, w3)).
  { rewrite (add_step_upsert _ _ _ _ c Hw2). by rewrite Hd1. }
  assert (S6 : add_step (AtUpsert text2 {| count := n |} v2) w3 = (Returned, w4)).
  { rewrite (add_step_upsert _ _ _ _ c1 Hw3).
    change (config c1) with (config c). by rewrite Hd2. }
  exists [First; Second; First; Second; First; Second], w4, c2.
  split; [| split; [| split; [| split; [| split]]]].
  - cbn [take interleave]. rewrite S1. cbn [fst snd]. by rewrite S2.
  - cbn [take interleave]. rewrite S1. cbn [fst snd]. rewrite S2. cbn [fst snd].
    rewrite S3. cbn [fst snd]. by rewrite S4.
  - cbn [interleave]. rewrite S1. cbn [fst snd]. rewrite S2. cbn [fst snd].
    rewrite S3. cbn [fst snd]. rewrite S4. cbn [fst snd].
    rewrite S5. cbn [fst snd]. by rewrite S6.
  - unfold notes_of, w4. simpl. by rewrite lookup_insert_eq.
  - simpl. apply insert_insert_eq.
  - simpl. rewrite insert_insert_eq. by apply map_size_insert_None.
Qed.

(** ** The helpers without a collection, and what they leave alone *)

(** X1.  Before the collection exists [add_note_to_db] raises the
    client's [ValueError] at its first statement, the count: the world is
    untouched, so the embeddings endpoint has not been asked and nothing
    was created on the way. *)
Theorem add_note_without_collection (note_text : string) (w : World) :
  notes_of w = None →
  add_note_to_db note_text w
  = (Raise (ValueError "Collection notes not found"), w)
  ∧ embedding_requests (add_note_to_db note_text w).2 = embedding_requests w
  ∧ notes_of (add_note_to_db note_text w).2 = None.
Proof.
  intros Hw. rewrite (add_note_to_db_absent note_text w Hw). simpl. done.
Qed.

(** X2.  Before the collection exists [list_notes_from_db] raises too.
    Without a query it raises the client's [ValueError] at the scroll and
    the world is untouched.  With a non-empty query the embedding is
    requested first: the endpoint has been asked once when the call
    raises, the exception of the endpoint if it failed and the client's
    [ValueError] from the search if it answered. *)
Theorem list_notes_without_collection (query : option string) (w : World) :
  notes_of w = None →
  list_notes_from_db query w
  = if truthy query
    then (match (get_embedding (default "" query) w).1 with
          | Ok _ => Raise (ValueError "Collection notes not found")
          | Raise e => Raise e
          end, asked (default "" query) w)
    else (Raise (ValueError "Collection notes not found"), w).
Proof.
  intros Hw. unfold list_notes_from_db.
  destruct (truthy query) eqn:Hq; simpl.
  - unfold bind at 1. rewrite (get_embedding_eq (default "" query) w).
    destruct (get_embedding (default "" query) w).1 as [v|e]; [| done].
    assert (Hw1 : collections (asked (default "" query) w)
                  !! QDRANT_COLLECTION_NAME = None) by done.
    assert (Hs : search QDRANT_COLLECTION_NAME v 10 (asked (default "" query) w)
                 = (Raise (ValueError "Collection notes not found"),
                    asked (default "" query) w)).
    { unfold search.
      by rewrite (bind_Raise _ _ _ _ _ (get_collection_None _ _ Hw1)). }
    by rewrite (bind_Raise _ _ _ _ _ Hs).
  - assert (Hs : scroll QDRANT_COLLECTION_NAME 12 w
                 = (Raise (ValueError "Collection notes not found"), w)).
    { unfold scroll.
      by rewrite (bind_Raise _ _ _ _ _ (get_collection_None _ _ Hw)). }
    by rewrite (bind_Raise _ _ _ _ _ Hs).
Qed.

(** X3.  Whatever the query and whatever the world, and whether it
    returns or raises, [list_notes_from_db] leaves the collections and
    the printed lines as they were; it sends no request to the embeddings
    endpoint when the query is [None] or empty and exactly one, for the
    query text, otherwise. *)
Theorem list_notes_never_writes (query : option string) (w : World) :
  let w' := (list_notes_from_db query w).2 in
  collections w' = collections w
  ∧ stdout w' = stdout w
  ∧ embedding_requests w'
    = embedding_requests w
      ++ (if truthy query
          then [ {| input := [default "" query];
                    model := EMBEDDING_MODEL;
                    dimensions := EMBEDDING_DIM |} ]
          else []).
Proof.
  intros w'. unfold w'. destruct (truthy query) eqn:Hq.
  - by rewrite (list_notes_search_world query w Hq).
  - rewrite (list_notes_browse_world query w Hq). by rewrite app_nil_r.
Qed.

(** ** Stored notes stay *)

Lemma perform_keeps_points r w c :
  notes_of w = Some c → store_ok c →
  ∃ c', notes_of (perform r w) = Some c'
        ∧ points c ⊆ points c'
        ∧ config c' = config c.
Proof.
  intros Hw Hc. destruct r as [|note_text|query]; simpl.
  - exists c. rewrite (assure_present w c Hw). done.
  - destruct (add_note_to_db_outcome note_text w c Hw Hc)
      as [(e & _ & _ & Hw1) | (v & _ & _ & Hw1)].
    + by exists c.
    + eexists. split; [exact Hw1 |]. split; [| done]. simpl.
      apply insert_subseteq. by apply store_ok_next_free.
  - exists c. unfold notes_of. by rewrite list_notes_collections.
Qed.

Lemma session_app rs more :
  session (rs ++ more) = foldl (λ w r, perform r w) (session rs) more.
Proof. unfold session. by rewrite foldl_app. Qed.

(** X4.  Sequential calls never overwrite or remove a stored note: a
    point found under an id at some moment of a session is found
    unchanged under the same id after any further calls of the helpers,
    and the configuration of the collection stays the same. *)
Theorem stored_notes_persist
    (calls more : list request) (c : Collection) (id : Z) (p : StoredPoint) :
  notes_of (session calls) = Some c →
  points c !! id = Some p →
  ∃ c', notes_of (session (calls ++ more)) = Some c'
        ∧ points c' !! id = Some p
        ∧ config c' = config c
        ∧ (size (points c) ≤ size (points c'))%nat.
Proof.
  intros Hw Hp.
  enough (∃ c', notes_of (session (calls ++ more)) = Some c'
                ∧ points c ⊆ points c' ∧ config c' = config c)
    as (c' & Hw' & Hsub & Hcfg).
  { exists c'. split; [done |]. split; [by eapply lookup_weaken |].
    split; [done |]. by apply map_subseteq_size. }
  induction more as [|r more IH] using rev_ind.
  - rewrite app_nil_r. by exists c.
  - destruct IH as (c1 & Hw1 & Hsub1 & Hcfg1).
    rewrite app_assoc, session_snoc.
    destruct (perform_keeps_points r _ c1 Hw1 (session_ok _ c1 Hw1))
      as (c2 & Hw2 & Hsub2 & Hcfg2).
    exists c2. split; [done |]. split; [by etrans | congruence].
Qed.

(** X5.  The search has no score threshold: in a session whose
    collection holds at most 10 notes, a non-empty query whose embedding
    call answers returns one result per stored note, and each stored
    note is among them with its text and its cosine score against the
    query vector. *)
Theorem search_returns_every_note_up_to_ten
    (calls : list request) (query : string) (c : Collection) (v : list Q) :
  query ≠ "" →
  notes_of (session calls) = Some c →
  (size (points c) ≤ 10)%nat →
  (get_embedding query (session calls)).1 = Ok v →
  has_dim EMBEDDING_DIM v = true →
  ∃ rs w',
    list_notes_from_db (Some query) (session calls) = (Ok rs, w') ∧
    length rs = size (points c) ∧
    ∀ id p t,
      points c !! id = Some p →
      sp_payload p !! "text" = Some t →
      {| text := t;
         score := Some (calculate_distance COSINE v (sp_vector p)) |} ∈ rs.
Proof.
  intros Hq Hw Hsize Hemb Hv. pose proof (session_ok calls c Hw) as Hc.
  eexists _, _.
  split; [exact (list_notes_search query _ c v Hq Hw Hc Hemb Hv) |].
  set (ranked := merge_sort higher_first (to_scored COSINE v <$> in_scroll_order c)).
  assert (Hlen : length ranked = size (points c)).
  { unfold ranked.
    by rewrite merge_sort_Permutation, length_fmap, in_scroll_order_length. }
  rewrite take_ge by lia. split; [by rewrite length_fmap |].
  intros id p t Hp Ht. apply list_elem_of_fmap.
  exists (to_scored COSINE v (id, p)). split.
  - unfold search_entry. simpl. by rewrite Ht.
  - unfold ranked. rewrite merge_sort_Permutation.
    apply list_elem_of_fmap. exists (id, p). split; [done |].
    by apply in_scroll_order_lookup.
Qed.

(** ** The save buttons *)

Lemma add_only_adds_nonempty note_text w :
  note_text ≠ "" → only_adds_nonempty w (add_note_to_db note_text w).2.
Proof.
  intros Ht c' id p. destruct (notes_of w) as [c|] eqn:Hw.
  - rewrite (add_note_to_db_present note_text w c Hw).
    destruct (get_embedding note_text w).1 as [v|e].
    + destruct (has_dim _ _);
        unfold notes_of at 1; simpl; rewrite lookup_insert_eq;
        intros [= <-]; simpl; rewrite lookup_insert; case_decide;
        try (intros Hp; left; by exists c);
        intros [= <-]; right; by eexists note_text, _.
    + intros Hc' Hp. left. exists c'. split; [| done].
      unfold notes_of in *. simpl in Hc'. congruence.
  - rewrite (add_note_to_db_absent note_text w Hw). simpl.
    intros Hc'. congruence.
Qed.

Lemma only_adds_nonempty_refl w : only_adds_nonempty w w.
Proof. intros c' id p Hc' Hp. left. by exists c'. Qed.

Lemma save_run (texts : gmap string string) (key toast t : string) (w : World) :
  texts !! key = Some t →
  (note_text <- getitem texts key ;;
   add_note_to_db note_text ;;;
   ret (Some toast)) w
  = (match (add_note_to_db t w).1 with
     | Ok _ => Ok (Some toast)
     | Raise e => Raise e
     end, (add_note_to_db t w).2).
Proof.
  intros Hkey. rewrite (bind_Ok _ _ _ _ _ (getitem_Some _ _ _ w Hkey)).
  unfold bind, ret. by destruct (add_note_to_db t w) as [[[]|e] w'].
Qed.

Lemma save_first_version_cases texts clicked w :
  (save_first_version texts clicked w = (Ok None, w)
   ∧ (clicked = false ∨ default "" (texts !! "note_text") = ""))
  ∨ (∃ t, texts !! "note_text" = Some t ∧ t ≠ "" ∧ clicked = true
          ∧ save_first_version texts clicked w
            = (match (add_note_to_db t w).1 with
               | Ok _ => Ok (Some "Pierwsza wersja notatki zapisana")
               | Raise e => Raise e
               end, (add_note_to_db t w).2)).
Proof.
  unfold save_first_version, str_truthy.
  destruct (texts !! "note_text") as [t|] eqn:Ht; simpl.
  - case_bool_decide as Hempty; simpl; [left; auto |].
    destruct clicked; [| left; auto].
    right. exists t. by rewrite (save_run texts "note_text" _ t w Ht).
  - left. auto.
Qed.

Lemma save_second_version_cases texts clicked w :
  (save_second_version texts clicked w = (Ok None, w)
   ∧ (clicked = false ∨ default "" (texts !! "note_text_corrected") = ""))
  ∨ (∃ t, texts !! "note_text_corrected" = Some t ∧ t ≠ "" ∧ clicked = true
          ∧ save_second_version texts clicked w
            = (match (add_note_to_db t w).1 with
               | Ok _ => Ok (Some "Druga wersja notatki zapisana")
               | Raise e => Raise e
               end, (add_note_to_db t w).2)).
Proof.
  unfold save_second_version, str_truthy.
  destruct (texts !! "note_text_corrected") as [t|] eqn:Ht; simpl.
  - case_bool_decide as Hempty; simpl; [left; auto |].
    destruct clicked; [| left; auto].
    right. exists t. by rewrite (save_run texts "note_text_corrected" _ t w Ht).
  - left. auto.
Qed.

(** X10.  The save buttons never store an empty note.  Whatever the
    texts in session state, whichever button is clicked and whatever the
    world, each point in the store after the run of a button either was
    there before or is the point [add_note_to_db] writes for a non-empty
    text.  ([add_note_to_db] itself does not look at the text.) *)
Theorem save_buttons_store_no_empty_note
    (texts : gmap string string) (clicked : bool) (w : World) :
  only_adds_nonempty w (save_first_version texts clicked w).2
  ∧ only_adds_nonempty w (save_second_version texts clicked w).2.
Proof.
  split.
  - destruct (save_first_version_cases texts clicked w)
      as [[-> _] | (t & _ & Ht & _ & ->)];
      [apply only_adds_nonempty_refl | by apply add_only_adds_nonempty].
  - destruct (save_second_version_cases texts clicked w)
      as [[-> _] | (t & _ & Ht & _ & ->)];
      [apply only_adds_nonempty_refl | by apply add_only_adds_nonempty].
Qed.


End NoteStore.

(** ** Concrete sessions *)

Example assure_twice_prints :
  stdout (session counting_endpoint head_product [Assure; Assure])
  = ["Tworzę kolekcję"; "Kolekcja już istnieje"].
Proof. vm_compute. reflexivity. Qed.

Example add_before_assure_raises :
  add_note_to_db counting_endpoint "a" fresh_world
  = (Raise (ValueError "Collection notes not found"), fresh_world).
Proof. vm_compute. reflexivity. Qed.

Example browse_two_notes :
  (list_notes_from_db counting_endpoint head_product None
     (session counting_endpoint head_product
        [Assure; AddNote "a"; AddNote "b"])).1
  = Ok [ {| text := "a"; score := None |}; {| text := "b"; score := None |} ].
Proof. vm_compute. reflexivity. Qed.

Example search_two_notes :
  (list_notes_from_db counting_endpoint head_product (Some "x")
     (session counting_endpoint head_product
        [Assure; AddNote "a"; AddNote "b"])).1
  = Ok [ {| text := "b"; score := Some 2%Q |};
         {| text := "a"; score := Some 0%Q |} ].
Proof. vm_compute. reflexivity. Qed.

Example add_with_endpoint_down :
  let w := session endpoint_down head_product [Assure] in
  (add_note_to_db endpoint_down "a" w).1
  = Raise (APIError "service unavailable")
  ∧ notes_of (add_note_to_db endpoint_down "a" w).2 = notes_of w.
Proof. split; vm_compute; reflexivity. Qed.

(** ** The theorems on concrete sessions *)

Lemma add_note_inserts_one_record_witness :
  let w := session counting_endpoint head_product [Assure; AddNote "a"] in
  (get_embedding counting_endpoint "b" w).1 = Ok (repeat 1%Q 3072) ∧
  has_dim EMBEDDING_DIM (repeat 1%Q 3072) = true ∧
  ∃ w', add_note_to_db counting_endpoint "b" w = (Ok tt, w') ∧
        (qdrant_count QDRANT_COLLECTION_NAME true w').1 = Ok {| count := 2 |}.
Proof.
  intros w.
  assert (Hemb : (get_embedding counting_endpoint "b" w).1 = Ok (repeat 1%Q 3072))
    by (vm_compute; reflexivity).
  assert (Hdim : has_dim EMBEDDING_DIM (repeat 1%Q 3072) = true)
    by (vm_compute; reflexivity).
  split; [exact Hemb |]. split; [exact Hdim |].
  edestruct (add_note_inserts_one_record counting_endpoint head_product
               [Assure; AddNote "a"] "b")
    as (_ & _ & w' & c' & Hadd & _ & _ & _ & _ & Hcount);
    [vm_compute; reflexivity | exact Hemb | exact Hdim |].
  exists w'. split; [exact Hadd | exact Hcount].
Defined.

Lemma search_returns_ranked_results_witness :
  let w := session counting_endpoint head_product
             [Assure; AddNote "a"; AddNote "b"; AddNote "c"] in
  "x" ≠ "" ∧
  (get_embedding counting_endpoint "x" w).1 = Ok (repeat 3%Q 3072) ∧
  has_dim EMBEDDING_DIM (repeat 3%Q 3072) = true ∧
  ∃ rs w', list_notes_from_db counting_endpoint head_product (Some "x") w
           = (Ok rs, w') ∧
           (length rs ≤ 10)%nat ∧ StronglySorted best_first rs.
Proof.
  intros w.
  assert (Hq : "x" ≠ "") by discriminate.
  assert (Hemb : (get_embedding counting_endpoint "x" w).1 = Ok (repeat 3%Q 3072))
    by (vm_compute; reflexivity).
  assert (Hdim : has_dim EMBEDDING_DIM (repeat 3%Q 3072) = true)
    by (vm_compute; reflexivity).
  split; [exact Hq |]. split; [exact Hemb |]. split; [exact Hdim |].
  edestruct (search_returns_ranked_results counting_endpoint head_product
               [Assure; AddNote "a"; AddNote "b"; AddNote "c"] "x")
    as (rs & w' & Hlist & _ & Hlen & Hsorted & _);
    [exact Hq | vm_compute; reflexivity | exact Hemb | exact Hdim |].
  exists rs, w'. split; [exact Hlist |]. split; [exact Hlen | exact Hsorted].
Defined.



Lemma stored_ids_are_one_to_n_witness :
  let w0 := (assure_db_collection_exists fresh_world).2 in
  all_embedded counting_endpoint ["a"; "b"; "c"] w0 = true
  ∧ (add_all counting_endpoint ["a"; "b"; "c"] w0).1
    = [(1, "a"); (2, "b"); (3, "c")]
  ∧ ∃ c, notes_of (add_all counting_endpoint ["a"; "b"; "c"] w0).2 = Some c
         ∧ size (points c) = 3%nat.
Proof.
  intros w0.
  assert (Hemb : all_embedded counting_endpoint ["a"; "b"; "c"] w0 = true)
    by (vm_compute; reflexivity).
  split; [exact Hemb |].
  destruct (stored_ids_are_one_to_n counting_endpoint ["a"; "b"; "c"])
    as (c & Hc & _ & _ & _ & _ & _ & _ & Hall).
  destruct (Hall Hemb) as (Hassigned & _ & _ & Hsize & _).
  split; [exact Hassigned |].
  exists c. split; [exact Hc | exact Hsize].
Defined.

Lemma browse_returns_scrolled_page_witness :
  let w := session counting_endpoint head_product
             [Assure; AddNote "a"; AddNote "b"] in
  ∃ rs, list_notes_from_db counting_endpoint head_product None w = (Ok rs, w) ∧
        length rs = 2%nat ∧ Forall (λ r, score r = None) rs.
Proof.
  intros w.
  edestruct (browse_returns_scrolled_page counting_endpoint head_product
               [Assure; AddNote "a"; AddNote "b"])
    as (_ & page & next & rs & _ & Hlist & Hlen & _ & _ & Hnone);
    [vm_compute; reflexivity |].
  exists rs. split; [exact Hlist |]. split; [exact Hlen | exact Hnone].
Defined.

Lemma empty_query_browses_witness :
  let w := session counting_endpoint head_product
             [Assure; AddNote "a"; AddNote "b"] in
  ∃ rs, list_notes_from_db counting_endpoint head_product (Some "") w = (Ok rs, w) ∧
        (length rs ≤ 12)%nat ∧ Forall (λ r, score r = None) rs.
Proof.
  intros w.
  edestruct (empty_query_browses counting_endpoint head_product
               [Assure; AddNote "a"; AddNote "b"] (Some ""))
    as (_ & page & next & rs & _ & Hlist & Hlen & _ & Hnone);
    [by right | vm_compute; reflexivity |].
  exists rs. split; [exact Hlist |]. split; [exact Hlen | exact Hnone].
Defined.

Lemma search_on_fresh_index_is_empty_witness :
  let w1 := (assure_db_collection_exists fresh_world).2 in
  notes_of fresh_world = None ∧
  "anything" ≠ "" ∧
  (get_embedding counting_endpoint "anything" w1).1 = Ok (repeat 0%Q 3072) ∧
  has_dim EMBEDDING_DIM (repeat 0%Q 3072) = true ∧
  list_notes_from_db counting_endpoint head_product (Some "anything") w1
  = (Ok [], asked "anything" w1).
Proof.
  intros w1.
  assert (Hw : notes_of fresh_world = None) by reflexivity.
  assert (Hq : "anything" ≠ "") by discriminate.
  assert (Hemb : (get_embedding counting_endpoint "anything" w1).1
                 = Ok (repeat 0%Q 3072)) by (vm_compute; reflexivity).
  assert (Hdim : has_dim EMBEDDING_DIM (repeat 0%Q 3072) = true)
    by (vm_compute; reflexivity).
  split; [exact Hw |]. split; [exact Hq |]. split; [exact Hemb |].
  split; [exact Hdim |].
  exact (proj2 (search_on_fresh_index_is_empty counting_endpoint head_product
                  fresh_world "anything" (repeat 0%Q 3072) Hw Hq Hemb Hdim)).
Defined.

Lemma added_note_is_listed_while_page_has_room_witness :
  let w := session counting_endpoint head_product [Assure; AddNote "a"] in
  (get_embedding counting_endpoint "hello world" w).1 = Ok (repeat 1%Q 3072) ∧
  has_dim EMBEDDING_DIM (repeat 1%Q 3072) = true ∧
  ∃ w1 rs,
    add_note_to_db counting_endpoint "hello world" w = (Ok tt, w1) ∧
    list_notes_from_db counting_endpoint head_product None w1 = (Ok rs, w1) ∧
    {| text := "hello world"; score := None |} ∈ rs.
Proof.
  intros w.
  assert (Hemb : (get_embedding counting_endpoint "hello world" w).1
                 = Ok (repeat 1%Q 3072)) by (vm_compute; reflexivity).
  assert (Hdim : has_dim EMBEDDING_DIM (repeat 1%Q 3072) = true)
    by (vm_compute; reflexivity).
  split; [exact Hemb |]. split; [exact Hdim |].
  eapply (added_note_is_listed_while_page_has_room counting_endpoint head_product
            [Assure; AddNote "a"] "hello world");
    [vm_compute; reflexivity | vm_compute; lia | exact Hemb | exact Hdim].
Defined.

Lemma concurrent_adds_share_an_id_witness :
  let w := session counting_endpoint head_product [Assure; AddNote "a"] in
  ∃ schedule w' c',
    interleave counting_endpoint schedule (AtCount "b") (AtCount "c") w
    = (Returned, Returned, w') ∧
    notes_of w' = Some c' ∧
    size (points c') = 2%nat.
Proof.
  intros w.
  edestruct (concurrent_adds_share_an_id counting_endpoint head_product
               [Assure; AddNote "a"] "b" "c"
               {| config := {| vp_size := 3072; vp_distance := COSINE |};
                  points := {[ 1 := note_point "a" (repeat 0%Q 3072) ]} |}
               (repeat 1%Q 3072) (repeat 2%Q 3072))
    as (schedule & w' & c' & _ & _ & Hrun & Hw' & _ & Hsize);
    [vm_compute; reflexivity | vm_compute; reflexivity | vm_compute; reflexivity
    | vm_compute; reflexivity | vm_compute; reflexivity |].
  exists schedule, w', c'. split; [exact Hrun |]. split; [exact Hw' | exact Hsize].
Defined.

(** Against C6 as stated: on a store that already holds twelve notes the
    note added next gets the id 13, the listing scrolls the ids 1 to 12,
    and the text just added is not in it. *)
Lemma thirteenth_note_is_not_listed :
  let w := session counting_endpoint head_product
             [Assure; AddNote "n1"; AddNote "n2"; AddNote "n3"; AddNote "n4";
              AddNote "n5"; AddNote "n6"; AddNote "n7"; AddNote "n8";
              AddNote "n9"; AddNote "n10"; AddNote "n11"; AddNote "n12"] in
  let w1 := (add_note_to_db counting_endpoint "hello world" w).2 in
  (add_note_to_db counting_endpoint "hello world" w).1 = Ok tt ∧
  (qdrant_count QDRANT_COLLECTION_NAME true w1).1 = Ok {| count := 13 |} ∧
  ∃ rs,
    (list_notes_from_db counting_endpoint head_product None w1).1 = Ok rs ∧
    text <$> rs = ["n1"; "n2"; "n3"; "n4"; "n5"; "n6";
                   "n7"; "n8"; "n9"; "n10"; "n11"; "n12"] ∧
    ¬ ∃ r, r ∈ rs ∧ text r = "hello world" ∧ score r = None.
Proof.
  intros w w1.
  split; [vm_compute; reflexivity |].
  split; [vm_compute; reflexivity |].
  eexists. split; [vm_compute; reflexivity |].
  split; [reflexivity |].
  intros (r & Hr & Ht & _).
  repeat (apply elem_of_cons in Hr as [-> | Hr]; [discriminate Ht |]).
  by apply elem_of_nil in Hr.
Qed.

(** ** Python strings: characters and lengths *)

Lemma str_app_nil (s : string) : "" +:+ s = s.
Proof. reflexivity. Qed.

Lemma str_app_cons (a : Ascii.ascii) (s1 s2 : string) :
  String a s1 +:+ s2 = String a (s1 +:+ s2).
Proof. reflexivity. Qed.

Ltac str_simpl := simpl; rewrite ?str_app_cons, ?str_app_nil; simpl.

Lemma str_has_app (c : Ascii.ascii) (s1 s2 : string) :
  str_has c (s1 +:+ s2) = str_has c s1 || str_has c s2.
Proof.
  induction s1 as [|a s1 IH]; str_simpl; [done |]. by rewrite IH, orb_assoc.
Qed.

Lemma str_app_empty_r (s : string) : s +:+ "" = s.
Proof.
  induction s as [|a s IH]; [done |]. rewrite str_app_cons. by rewrite IH.
Qed.


Lemma str_len_cons (a : Ascii.ascii) (s : string) :
  str_len (String a s) = ((if continues a then 0 else 1) + str_len s)%nat.
Proof. reflexivity. Qed.

Lemma str_len_app (s1 s2 : string) :
  str_len (s1 +:+ s2) = (str_len s1 + str_len s2)%nat.
Proof.
  induction s1 as [|a s1 IH]; [done |].
  rewrite str_app_cons, !str_len_cons, IH. lia.
Qed.

Lemma str_prefix_cons (n : nat) (a : Ascii.ascii) (s : string) :
  str_prefix n (String a s)
  = if continues a then String a (str_prefix n s)
    else match n with
         | S n' => String a (str_prefix n' s)
         | O => EmptyString
         end.
Proof. reflexivity. Qed.

Lemma str_prefix_len (n : nat) (s : string) :
  str_len (str_prefix n s) = Nat.min n (str_len s).
Proof.
  revert n. induction s as [|a s IH]; intros n.
  - change (0 = Nat.min n 0)%nat. lia.
  - rewrite str_prefix_cons, str_len_cons. destruct (continues a) eqn:Ha.
    + rewrite str_len_cons, Ha, IH. lia.
    + destruct n as [|n]; [done |]. rewrite str_len_cons, Ha, IH. lia.
Qed.

Lemma str_prefix_all (n : nat) (s : string) :
  (str_len s ≤ n)%nat → str_prefix n s = s.
Proof.
  revert n. induction s as [|a s IH]; intros n; [done |].
  rewrite str_prefix_cons, str_len_cons. destruct (continues a).
  - intros Hlen. rewrite IH; [done | lia].
  - destruct n as [|n]; [lia |]. intros Hlen. rewrite IH; [done | lia].
Qed.

Lemma str_replace_newline_len (s : string) :
  str_len (str_replace newline " " s) = str_len s.
Proof.
  induction s as [|a s IH]; [done |].
  change (str_replace newline " " (String a s))
    with ((if Ascii.eqb a newline then " " else String a "")
            +:+ str_replace newline " " s).
  rewrite str_len_app, IH, str_len_cons.
  destruct (Ascii.eqb a newline) eqn:Ha.
  - apply Ascii.eqb_eq in Ha. by subst a.
  - rewrite str_len_cons. change (str_len "") with 0%nat. lia.
Qed.

Lemma str_replace_absent (old : Ascii.ascii) (new s : string) :
  str_has old s = false → str_replace old new s = s.
Proof.
  induction s as [|a s IH]; simpl; [done |].
  intros [Ha Hs]%orb_false_elim. rewrite Ha, (IH Hs). done.
Qed.


Lemma str_replace_one_gone (old new : Ascii.ascii) (s : string) :
  new ≠ old → str_has old (str_replace old (String new "") s) = false.
Proof.
  intros Hne. induction s as [|a s IH]; simpl; [done |].
  destruct (Ascii.eqb a old) eqn:Ha; str_simpl; rewrite IH, orb_false_r.
  - by apply Ascii.eqb_neq.
  - done.
Qed.



Lemma last_cons_cons {A} (x y : A) (l : list A) : last (x :: y :: l) = last (y :: l).
Proof. done. Qed.


(** ** The labels of the search results *)

(** X6.  The text part of a label fits one line of the radio list: it has
    at most 63 characters and no line break.  A text of at most 60
    characters without a line break is shown as it is, whatever the
    number of bytes of its characters; a longer one is cut to its first
    60 characters, line breaks turned into spaces, followed by three
    dots. *)
Theorem text_short_fits_one_line (note_text : string) :
  (str_len (text_short note_text) ≤ 63)%nat
  ∧ str_has newline (text_short note_text) = false
  ∧ ((str_len note_text ≤ 60)%nat →
     text_short note_text = str_replace newline " " note_text)
  ∧ ((str_len note_text ≤ 60)%nat →
     str_has newline note_text = false →
     text_short note_text = note_text)
  ∧ ((60 < str_len note_text)%nat →
     str_len (text_short note_text) = 63%nat
     ∧ text_short note_text
       = str_replace newline " " (str_prefix 60 note_text) +:+ "...").
Proof.
  unfold text_short.
  assert (Hlen : str_len (str_replace newline " " (str_prefix 60 note_text))
                 = Nat.min 60 (str_len note_text)).
  { by rewrite str_replace_newline_len, str_prefix_len. }
  assert (Hnl : str_has newline (str_replace newline " " (str_prefix 60 note_text))
                = false).
  { by apply str_replace_one_gone. }
  split; [| split; [| split; [| split]]].
  - rewrite str_len_app, Hlen.
    destruct (60 <? _)%nat;
      [change (str_len "...") with 3%nat
      | change (str_len "") with 0%nat]; lia.
  - rewrite str_has_app, Hnl. by destruct (60 <? _)%nat.
  - intros Hshort. rewrite (proj2 (Nat.ltb_ge _ _) Hshort).
    rewrite (str_prefix_all 60 note_text Hshort).
    apply str_app_empty_r.
  - intros Hshort Hline. rewrite (proj2 (Nat.ltb_ge _ _) Hshort).
    rewrite (str_prefix_all 60 note_text Hshort).
    rewrite (str_replace_absent _ _ _ Hline). apply str_app_empty_r.
  - intros Hlong. rewrite (proj2 (Nat.ltb_lt _ _) Hlong).
    split; [| done]. rewrite str_len_app, Hlen.
    change (str_len "...") with 3%nat. lia.
Qed.

(** X7.  Every index the radio list offers has a label, the one built
    from the note at that index: [format_func] never runs off the end of
    [note_labels], and there are as many labels as notes. *)
Theorem every_radio_option_has_a_label
    (repr : Q → string) (notes : list NoteResult) (i : nat) :
  i ∈ radio_options notes →
  length (note_labels repr notes) = length notes
  ∧ ∃ note, notes !! i = Some note
            ∧ format_func (note_labels repr notes) i
              = Ok (note_label repr note).
Proof.
  unfold radio_options, note_labels, format_func.
  intros Hi%elem_of_seq. split; [by rewrite length_fmap |].
  destruct (lookup_lt_is_Some_2 notes i) as [note Hnote]; [lia |].
  exists note. split; [done |]. by rewrite list_lookup_fmap, Hnote.
Qed.

(** ** The language chosen in the fourth translation tab *)


(** X9.  Every entry of the language list can be chosen: the text shown
    for it reads back as its code, and the prompt name is found under
    that code, so the lookup raises no [KeyError] for any option of the
    select box. *)
Theorem every_language_option_has_a_prompt (d : string) :
  d ∈ language_display →
  ∃ k v, (k, v) ∈ tts_languages
         ∧ d = display_of k v
         ∧ selected_lang_code d = k
         ∧ selected_lang_prompt d = Ok v.1.2.
Proof.
  unfold language_display. intros (kv & -> & Hkv)%list_elem_of_fmap.
  exists kv.1, kv.2. split; [by destruct kv as [k v] |]. split; [done |].
  unfold tts_languages in Hkv.
  repeat (apply elem_of_cons in Hkv as [-> | Hkv];
          [split; vm_compute; reflexivity |]).
  by apply elem_of_nil in Hkv.
Qed.

(** ** Dictionaries written as lists of items *)

Lemma dict_getitem_present {V} (d : list (string * V)) (key : string) :
  key ∈ d.*1 → ∃ v, dict_getitem d key = Ok v ∧ (key, v) ∈ d.
Proof.
  induction d as [|[k v] d IH]; simpl; [by intros ?%elem_of_nil |].
  destruct (String.eqb k key) eqn:Hk.
  - apply String.eqb_eq in Hk as ->. intros _. exists v. split; [done | left].
  - apply String.eqb_neq in Hk. intros [? | Hin]%elem_of_cons; [done |].
    destruct (IH Hin) as (v' & Hv' & Hin'). exists v'. split; [done | by right].
Qed.

Lemma dict_getitem_absent {V} (d : list (string * V)) (key : string) :
  key ∉ d.*1 → dict_getitem d key = Raise (KeyError key).
Proof.
  induction d as [|[k v] d IH]; simpl; [done |].
  intros [Hne Hnin]%not_elem_of_cons.
  destruct (String.eqb k key) eqn:Hk; [| by apply IH].
  by apply String.eqb_eq in Hk.
Qed.

(** ** The chat column, block by block *)

Opaque dict_getitem.

Section ChatColumnFacts.

Variable create : list ChatRequest → ChatRequest → result string.

Lemma ui_bind_Ok {A B} (c : UI A) (k : A → UI B) s a s' :
  c s = (Ok a, s') → ui_bind c k s = k a s'.
Proof. intros H. unfold ui_bind. by rewrite H. Qed.

Lemma ui_bind_Raise {A B} (c : UI A) (k : A → UI B) s e s' :
  c s = (Raise e, s') → ui_bind c k s = (Raise e, s').
Proof. intros H. unfold ui_bind. by rewrite H. Qed.

Lemma draw_each_page lines s :
  draw_each lines s
  = (Ok tt,
     {| session_texts := session_texts s;
        chat_text_source := chat_text_source s;
        chat_history := chat_history s;
        prev_chat_text_source := prev_chat_text_source s;
        clear_chat_input := clear_chat_input s;
        chat_user_input := chat_user_input s;
        chat_requests := chat_requests s;
        page := page s ++ lines |}).
Proof.
  revert s. induction lines as [|line lines IH]; intros s; simpl.
  - unfold ui_ret. rewrite app_nil_r. by destruct s.
  - unfold ui_bind, draw. rewrite IH. simpl. by rewrite <- app_assoc.
Qed.

Lemma chat_context_known s key :
  dict_getitem text_sources (chat_text_source s) = Ok key →
  chat_context s
  = (Ok (default "" (session_texts s !! key)),
     with_prev (Some (chat_text_source s))
       (with_history
          (context_history s (default "" (session_texts s !! key))) s)).
Proof.
  intros Hkey. destruct s as [texts source history prev clear input requests pg].
  simpl in Hkey.
  unfold chat_context, context_history, ui_bind, text_source_key,
    session_get_text, gets, modify, ui_ret, append_history, with_history,
    with_prev.
  simpl. rewrite Hkey. simpl.
  set (t := default "" (texts !! key)).
  destruct history as [|m history], (str_truthy t) eqn:Ht,
    prev as [p|]; simpl.
  all: repeat case_bool_decide; simpl.
  all: rewrite ?Hkey; simpl; fold t; rewrite ?Ht; simpl.
  all: try reflexivity.
  all: try (simplify_eq; reflexivity).
  all: exfalso; intuition congruence.
Qed.

Lemma chat_context_unknown s e :
  dict_getitem text_sources (chat_text_source s) = Raise e →
  chat_context s = (Raise e, s).
Proof.
  intros Hkey. unfold chat_context.
  apply ui_bind_Raise. unfold text_source_key. by rewrite Hkey.
Qed.

Lemma chat_clear_input_run s :
  chat_clear_input s
  = (Ok tt,
     if bool_decide (clear_chat_input s = Some true)
     then with_clear (Some false) (with_input (Some "") s)
     else s).
Proof.
  unfold chat_clear_input, ui_bind, gets, modify, ui_ret. simpl.
  by case_bool_decide.
Qed.

Lemma chat_ask_nothing s : chat_ask create "" s = (Ok tt, s).
Proof. done. Qed.

Lemma chat_ask_known user_input s key :
  dict_getitem text_sources (chat_text_source s) = Ok key →
  user_input ≠ "" →
  let asked_history :=
    system_prompt (default "" (session_texts s !! key))
      :: without_leading_system (chat_history s)
      ++ [ {| role := user; content := user_input |} ] in
  let req := {| chat_model := "gpt-4o";
                messages := asked_history;
                max_tokens := 1024 |} in
  let answer := match create (chat_requests s) req with
                | Ok answer => answer
                | Raise e => "Błąd komunikacji z OpenAI: " +:+ str_exn e
                end in
  chat_ask create user_input s
  = (Ok tt,
     {| session_texts := session_texts s;
        chat_text_source := chat_text_source s;
        chat_history :=
          asked_history ++ [ {| role := assistant; content := answer |} ];
        prev_chat_text_source := prev_chat_text_source s;
        clear_chat_input := Some true;
        chat_user_input := chat_user_input s;
        chat_requests := chat_requests s ++ [req];
        page := page s |}).
Proof.
  intros Hkey Hinput. destruct s as [texts source history prev clear input requests pg].
  simpl in Hkey. simpl.
  unfold chat_ask, str_truthy. rewrite bool_decide_eq_false_2 by done. simpl.
  unfold ui_bind, text_source_key, session_get_text, gets, modify, ui_ret,
    ask_endpoint, append_history, with_history, with_clear.
  simpl. rewrite Hkey. simpl.
  destruct history as [|first rest]; simpl; [done |].
  by case_bool_decide.
Qed.

Lemma chat_clear_button_run clicked s :
  chat_clear_button clicked s
  = (Ok clicked,
     if clicked then with_clear (Some true) (with_history [] s) else s).
Proof. by destruct clicked. Qed.

Ltac ui_norm :=
  cbn [session_texts chat_text_source chat_history prev_chat_text_source
       clear_chat_input chat_user_input chat_requests page
       with_history with_prev with_clear with_input append_history fst snd].

(** One whole run, when the source chosen is one of the labels. *)
Lemma chat_column_run user_input clear_clicked s key :
  dict_getitem text_sources (chat_text_source s) = Ok key →
  let t := default "" (session_texts s !! key) in
  let context := context_history s t in
  let asked_history :=
    system_prompt t :: without_leading_system context
      ++ [ {| role := user; content := user_input |} ] in
  let req := {| chat_model := "gpt-4o";
                messages := asked_history;
                max_tokens := 1024 |} in
  let answer := match create (chat_requests s) req with
                | Ok answer => answer
                | Raise e => "Błąd komunikacji z OpenAI: " +:+ str_exn e
                end in
  ∃ drawn,
    chat_column create user_input clear_clicked s
    = (Ok clear_clicked,
       {| session_texts := session_texts s;
          chat_text_source := chat_text_source s;
          chat_history :=
            (if clear_clicked then []
             else if str_truthy user_input
                  then asked_history
                         ++ [ {| role := assistant; content := answer |} ]
                  else context);
          prev_chat_text_source := Some (chat_text_source s);
          clear_chat_input :=
            (if clear_clicked || str_truthy user_input then Some true
             else if bool_decide (clear_chat_input s = Some true)
                  then Some false
                  else clear_chat_input s);
          chat_user_input :=
            (if bool_decide (clear_chat_input s = Some true)
             then Some ""
             else chat_user_input s);
          chat_requests :=
            chat_requests s ++ (if str_truthy user_input then [req] else []);
          page := drawn |}).
Proof.
  intros Hkey t context asked_history req answer.
  unfold answer, req, asked_history, context, t.
  clear answer req asked_history context t.
  destruct s as [texts source history prev clear input requests pg].
  ui_norm. cbn [chat_text_source] in Hkey.
  unfold chat_column.
  rewrite (ui_bind_Ok _ _ _ _ _ (eq_refl : draw _ _ = (Ok tt, _))). ui_norm.
  match goal with
  | |- context [ui_bind chat_context _ ?s1] =>
      rewrite (ui_bind_Ok _ _ _ _ _ (chat_context_known s1 key Hkey))
  end.
  unfold context_history. ui_norm.
  rewrite (ui_bind_Ok _ _ _ _ _ (eq_refl : draw _ _ = (Ok tt, _))). ui_norm.
  rewrite (ui_bind_Ok _ _ _ _ _ (eq_refl : draw _ _ = (Ok tt, _))). ui_norm.
  match goal with
  | |- context [ui_bind chat_clear_input _ ?s2] =>
      rewrite (ui_bind_Ok _ _ _ _ _ (chat_clear_input_run s2))
  end.
  ui_norm.
  destruct (bool_decide (clear = Some true)); ui_norm;
    (destruct (str_truthy user_input) eqn:Hinput;
     [ assert (Hne : user_input ≠ "") by (by intros ->);
       match goal with
       | |- context [ui_bind (chat_ask create user_input) _ ?s3] =>
           rewrite (ui_bind_Ok _ _ _ _ _
                      (chat_ask_known user_input s3 key Hkey Hne))
       end
     | assert (user_input = "") as ->
         by (unfold str_truthy in Hinput; by case_bool_decide);
       rewrite (ui_bind_Ok _ _ _ _ _ (chat_ask_nothing _)) ]);
    ui_norm;
    unfold ui_bind at 1, gets at 1; ui_norm;
    rewrite (ui_bind_Ok _ _ _ _ _ (draw_each_page _ _)); ui_norm;
    rewrite chat_clear_button_run;
    destruct clear_clicked; ui_norm; rewrite ?app_nil_r, ?orb_true_r;
    eexists; reflexivity.
Qed.

Lemma chat_column_known user_input clear_clicked s key :
  dict_getitem text_sources (chat_text_source s) = Ok key →
  let t := default "" (session_texts s !! key) in
  let context := context_history s t in
  let asked_history :=
    system_prompt t :: without_leading_system context
      ++ [ {| role := user; content := user_input |} ] in
  let req := {| chat_model := "gpt-4o";
                messages := asked_history;
                max_tokens := 1024 |} in
  let answer := match create (chat_requests s) req with
                | Ok answer => answer
                | Raise e => "Błąd komunikacji z OpenAI: " +:+ str_exn e
                end in
  let final := (chat_column create user_input clear_clicked s).2 in
  (chat_column create user_input clear_clicked s).1 = Ok clear_clicked
  ∧ chat_history final
    = (if clear_clicked then []
       else if str_truthy user_input
            then asked_history ++ [ {| role := assistant; content := answer |} ]
            else context)
  ∧ chat_requests final
    = chat_requests s ++ (if str_truthy user_input then [req] else [])
  ∧ prev_chat_text_source final = Some (chat_text_source s)
  ∧ clear_chat_input final
    = (if clear_clicked || str_truthy user_input then Some true
       else if bool_decide (clear_chat_input s = Some true) then Some false
            else clear_chat_input s)
  ∧ session_texts final = session_texts s
  ∧ chat_text_source final = chat_text_source s.
Proof.
  intros Hkey t context asked_history req answer final. unfold final.
  destruct (chat_column_run user_input clear_clicked s key Hkey) as [drawn ->].
  done.
Qed.

Lemma without_leading_system_clean history :
  system_only_first history →
  Forall (λ m, role m ≠ system) (without_leading_system history).
Proof.
  unfold system_only_first. destruct history as [|first rest]; simpl; [done |].
  intros Hrest. case_bool_decide; [done | by constructor].
Qed.

Lemma context_history_clean s t :
  system_only_first (chat_history s) →
  system_only_first (context_history s t).
Proof.
  unfold context_history, system_only_first. intros Hs.
  repeat case_bool_decide; destruct (str_truthy t); simpl;
    try done; by rewrite ?andb_false_r.
Qed.

(** X12.  One system message at most, and in front.  If the history has
    no system message after its first message before a run of the
    column, it has none after the run, whatever was typed, whichever
    button was clicked, whatever the endpoint answered and whether the
    run returned or raised. *)
Theorem chat_column_keeps_system_prompt_first
    (user_input : string) (clear_clicked : bool) (s : ChatState) :
  system_only_first (chat_history s) →
  system_only_first
    (chat_history (chat_column create user_input clear_clicked s).2).
Proof.
  intros Hs.
  destruct (dict_getitem text_sources (chat_text_source s)) as [key|e] eqn:Hkey.
  - destruct (chat_column_known user_input clear_clicked s key Hkey)
      as (_ & -> & _).
    destruct clear_clicked; [by constructor |].
    destruct (str_truthy user_input); [| by apply context_history_clean].
    unfold system_only_first. simpl. rewrite <- app_assoc.
    apply Forall_app. split.
    + by apply without_leading_system_clean, context_history_clean.
    + repeat constructor; done.
  - unfold chat_column.
    rewrite (ui_bind_Ok _ _ _ _ _ (eq_refl : draw _ s = (Ok tt, _))).
    match goal with
    | |- context [ui_bind chat_context _ ?s1] =>
        rewrite (ui_bind_Raise _ _ _ _ _ (chat_context_unknown s1 e Hkey))
    end.
    exact Hs.
Qed.




(** X14.  A failure of the chat endpoint stays in the conversation.  When
    the source is one of the labels, something was typed and the
    endpoint raises, the run still returns normally; unless the clear
    button was clicked, the history ends with the question and an
    assistant message that says so and quotes the exception. *)
Theorem chat_failure_becomes_a_message
    (user_input : string) (s : ChatState) (key : string) (e : exn) :
  dict_getitem text_sources (chat_text_source s) = Ok key →
  user_input ≠ "" →
  (∀ req, create (chat_requests s) req = Raise e) →
  (chat_column create user_input false s).1 = Ok false
  ∧ ∃ before,
      chat_history (chat_column create user_input false s).2
      = before
          ++ [ {| role := user; content := user_input |};
               {| role := assistant;
                  content := "Błąd komunikacji z OpenAI: " +:+ str_exn e |} ].
Proof.
  intros Hkey Hinput Hdown.
  destruct (chat_column_known user_input false s key Hkey)
    as (Hres & Hhist & _).
  assert (Htruthy : str_truthy user_input = true).
  { unfold str_truthy. by rewrite bool_decide_eq_false_2. }
  rewrite Htruthy, Hdown in Hhist.
  split; [exact Hres |].
  eexists (system_prompt _ :: without_leading_system _).
  rewrite Hhist. simpl. by rewrite <- app_assoc.
Qed.

(** X15.  Nothing typed, nothing sent.  With an empty input the run sends
    no request to the chat endpoint, whatever the state and whichever
    button is clicked. *)
Theorem chat_without_question_sends_nothing
    (clear_clicked : bool) (s : ChatState) :
  chat_requests (chat_column create "" clear_clicked s).2 = chat_requests s.
Proof.
  destruct (dict_getitem text_sources (chat_text_source s)) as [key|e] eqn:Hkey.
  - destruct (chat_column_known "" clear_clicked s key Hkey)
      as (_ & _ & -> & _).
    simpl. by rewrite app_nil_r.
  - unfold chat_column.
    rewrite (ui_bind_Ok _ _ _ _ _ (eq_refl : draw _ s = (Ok tt, _))).
    match goal with
    | |- context [ui_bind chat_context _ ?s1] =>
        rewrite (ui_bind_Raise _ _ _ _ _ (chat_context_unknown s1 e Hkey))
    end.
    done.
Qed.

(** X16.  Another source, another conversation.  When the source differs
    from the one of the run before, a run without a question and
    without the clear button leaves as history only the system message
    of the new text, or nothing when that text is empty, and remembers
    the new source. *)
Theorem chat_source_change_resets_history
    (s : ChatState) (key previous : string) :
  dict_getitem text_sources (chat_text_source s) = Ok key →
  prev_chat_text_source s = Some previous →
  previous ≠ chat_text_source s →
  let t := default "" (session_texts s !! key) in
  let final := (chat_column create "" false s).2 in
  chat_history final = (if str_truthy t then [system_prompt t] else [])
  ∧ prev_chat_text_source final = Some (chat_text_source s).
Proof.
  intros Hkey Hprev Hne t final.
  destruct (chat_column_known "" false s key Hkey)
    as (_ & Hhist & _ & Hp & _).
  split; [| exact Hp].
  fold final in Hhist. rewrite Hhist. simpl. unfold context_history.
  rewrite Hprev. rewrite bool_decide_eq_false_2; [done |].
  intros [? | ?]; congruence.
Qed.

(** X17.  The clear button always wins.  When the source is one of the
    labels and the button is clicked, the run ends with an empty history,
    the flag that empties the input box set, and a rerun asked for, even
    if a question was sent and answered in the same run. *)
Theorem chat_clear_button_empties_history
    (user_input : string) (s : ChatState) (key : string) :
  dict_getitem text_sources (chat_text_source s) = Ok key →
  let r := chat_column create user_input true s in
  r.1 = Ok true
  ∧ chat_history r.2 = []
  ∧ clear_chat_input r.2 = Some true
  ∧ length (chat_requests r.2)
    = (length (chat_requests s) + if str_truthy user_input then 1 else 0)%nat.
Proof.
  intros Hkey r.
  destruct (chat_column_known user_input true s key Hkey)
    as (Hres & Hhist & Hreq & _ & Hclear & _).
  split; [exact Hres |]. split; [exact Hhist |]. split; [exact Hclear |].
  unfold r. rewrite Hreq, length_app. by destruct (str_truthy user_input).
Qed.

(** X18.  The run raises exactly when the source is not a label.  With a
    source among the labels of [text_sources], the options of the select
    box in the sidebar, the run returns normally.  With any other value
    it raises [KeyError] at its first lookup, after the heading was
    drawn: history, requests and the rest of the session state are as
    before. *)
Theorem chat_column_raises_only_on_unknown_source
    (user_input : string) (clear_clicked : bool) (s : ChatState) :
  let r := chat_column create user_input clear_clicked s in
  (chat_text_source s ∈ text_sources.*1 → r.1 = Ok clear_clicked)
  ∧ (chat_text_source s ∉ text_sources.*1 →
     r.1 = Raise (KeyError (chat_text_source s))
     ∧ chat_history r.2 = chat_history s
     ∧ chat_requests r.2 = chat_requests s
     ∧ prev_chat_text_source r.2 = prev_chat_text_source s
     ∧ clear_chat_input r.2 = clear_chat_input s
     ∧ page r.2 = page s ++ ["💬 Rozmowa z ChatGPT-4o o wybranym tekście"]).
Proof.
  intros r. split.
  - intros (key & Hkey & _)%dict_getitem_present.
    by destruct (chat_column_known user_input clear_clicked s key Hkey).
  - intros Hkey%dict_getitem_absent. unfold r, chat_column.
    rewrite (ui_bind_Ok _ _ _ _ _ (eq_refl : draw _ s = (Ok tt, _))).
    match goal with
    | |- context [ui_bind chat_context _ ?s1] =>
        rewrite (ui_bind_Raise _ _ _ _ _ (chat_context_unknown s1 _ Hkey))
    end.
    done.
Qed.

End ChatColumnFacts.

Transparent dict_getitem.

(** ** The API key gate *)

Lemma str_truthy_true (s : string) : str_truthy s = true ↔ s ≠ "".
Proof. unfold str_truthy. case_bool_decide; naive_solver. Qed.

(** X19.  Past the gate there is a key.  A run goes on past the block
    only with a non-empty key in the session state.  A key already in the
    session is kept, whatever [.env] and the input box hold.  The input
    box is drawn exactly when the session has no key and [.env] has no
    entry for it, and a key typed there makes the script run again
    instead of going on. *)
Theorem api_key_gate_lets_through_only_with_key
    (env : gmap string (option string)) (typed : string)
    (session_key : option string) :
  let r := api_key_gate env typed session_key in
  (gate_flow r = Continue → ∃ k, gate_key r = Some k ∧ k ≠ "")
  ∧ (opt_truthy session_key = true →
     r = {| gate_key := session_key;
            gate_input_shown := false;
            gate_flow := Continue |})
  ∧ (gate_input_shown r = true ↔
     opt_truthy session_key = false ∧ env !! "OPENAI_API_KEY" = None)
  ∧ (gate_flow r = Rerun ↔
     opt_truthy session_key = false ∧ env !! "OPENAI_API_KEY" = None
     ∧ typed ≠ "")
  ∧ (gate_flow r = Rerun → gate_key r = Some typed).
Proof.
  intros r. unfold r, api_key_gate. clear r.
  assert (Hfalse : str_truthy "" = false) by done.
  assert (Htrue : ∀ s, s ≠ "" → str_truthy s = true)
    by (intros s Hs; by apply str_truthy_true).
  destruct session_key as [k|]; [destruct (decide (k = "")) as [-> | Hk] |];
    destruct (env !! "OPENAI_API_KEY") as [[v|]|];
    try destruct (decide (v = "")) as [-> | Hv];
    destruct (decide (typed = "")) as [-> | Ht];
    cbn [opt_truthy negb];
    rewrite ?Hfalse, ?(Htrue k), ?(Htrue v), ?(Htrue typed) by done;
    cbn [opt_truthy negb gate_flow gate_key gate_input_shown];
    rewrite ?Hfalse, ?(Htrue k), ?(Htrue v), ?(Htrue typed) by done;
    cbn [opt_truthy negb gate_flow gate_key gate_input_shown].
  all: repeat split; try done; try (intros; discriminate).
  all: try (intros _; by eexists).
  all: try (by intros (? & ? & ?)).
  all: try (by intros [? ?]).
Qed.

(** X20.  An entry for the key in [.env] that is empty, or has no value,
    shuts the page: with no key in the session, the script takes the
    entry, draws no input box and stops. *)
Theorem api_key_gate_stops_on_empty_env_entry
    (env : gmap string (option string)) (typed : string)
    (session_key value : option string) :
  opt_truthy session_key = false →
  env !! "OPENAI_API_KEY" = Some value →
  opt_truthy value = false →
  api_key_gate env typed session_key
  = {| gate_key := value; gate_input_shown := false; gate_flow := Stop |}.
Proof.
  intros Hs Henv Hv. unfold api_key_gate. rewrite Hs, Henv. simpl.
  by rewrite Hv.
Qed.

(** ** The text a translation tab works on *)

(** X21.  A translation tab never works on an empty or missing text.
    Whichever option of the radio list is chosen, the lookup of the text
    raises no [KeyError] and the text found is not empty: it is the first
    version for the first label and the corrected one otherwise.  The
    list has no option exactly when both versions are empty or absent. *)
Theorem text_to_translate_is_never_empty
    (texts : gmap string string) (selected_note : string) :
  selected_note ∈ note_options texts →
  ∃ t, text_to_translate texts selected_note = Ok t
       ∧ t ≠ ""
       ∧ (if bool_decide (selected_note = "Pierwsza wersja notatki")
          then texts !! "note_text" = Some t
          else texts !! "note_text_corrected" = Some t).
Proof.
  unfold note_options, text_to_translate, text_getitem.
  intros [Hin | Hin]%elem_of_app.
  - destruct (texts !! "note_text") as [t|] eqn:Ht; simpl in Hin;
      [| by apply elem_of_nil in Hin].
    destruct (str_truthy t) eqn:Htruthy; [| by apply elem_of_nil in Hin].
    apply list_elem_of_singleton in Hin as ->. simpl.
    exists t. by apply str_truthy_true in Htruthy.
  - destruct (texts !! "note_text_corrected") as [t|] eqn:Ht; simpl in Hin;
      [| by apply elem_of_nil in Hin].
    destruct (str_truthy t) eqn:Htruthy; [| by apply elem_of_nil in Hin].
    apply list_elem_of_singleton in Hin as ->. simpl.
    exists t. by apply str_truthy_true in Htruthy.
Qed.

(** ** The further theorems on concrete inputs *)

Lemma add_note_without_collection_witness :
  notes_of fresh_world = None
  ∧ add_note_to_db counting_endpoint "a" fresh_world
    = (Raise (ValueError "Collection notes not found"), fresh_world).
Proof.
  assert (Hw : notes_of fresh_world = None) by reflexivity.
  split; [exact Hw |].
  exact (proj1 (add_note_without_collection counting_endpoint "a" fresh_world Hw)).
Defined.

Lemma list_notes_without_collection_witness :
  notes_of fresh_world = None
  ∧ list_notes_from_db counting_endpoint head_product (Some "kot") fresh_world
    = (Raise (ValueError "Collection notes not found"), asked "kot" fresh_world).
Proof.
  assert (Hw : notes_of fresh_world = None) by reflexivity.
  split; [exact Hw |].
  exact (list_notes_without_collection counting_endpoint head_product
           (Some "kot") fresh_world Hw).
Defined.

Lemma stored_notes_persist_witness :
  ∃ c', notes_of (session counting_endpoint head_product
                    ([Assure; AddNote "a"]
                       ++ [AddNote "b"; ListNotes (Some "a"); Assure]))
        = Some c'
        ∧ points c' !! 1 = Some (note_point "a" (repeat 0%Q 3072)).
Proof.
  edestruct (stored_notes_persist counting_endpoint head_product
               [Assure; AddNote "a"]
               [AddNote "b"; ListNotes (Some "a"); Assure]
               {| config := {| vp_size := 3072; vp_distance := COSINE |};
                  points := {[ 1 := note_point "a" (repeat 0%Q 3072) ]} |}
               1 (note_point "a" (repeat 0%Q 3072)))
    as (c' & Hc' & Hp & _);
    [vm_compute; reflexivity | vm_compute; reflexivity |].
  exists c'. split; [exact Hc' | exact Hp].
Defined.

Lemma search_returns_every_note_up_to_ten_witness :
  let w := session counting_endpoint head_product
             [Assure; AddNote "a"; AddNote "b"] in
  ∃ rs w', list_notes_from_db counting_endpoint head_product (Some "x") w
           = (Ok rs, w')
           ∧ length rs = 2%nat.
Proof.
  intros w.
  edestruct (search_returns_every_note_up_to_ten counting_endpoint head_product
               [Assure; AddNote "a"; AddNote "b"] "x"
               {| config := {| vp_size := 3072; vp_distance := COSINE |};
                  points := {[ 1 := note_point "a" (repeat 0%Q 3072);
                               2 := note_point "b" (repeat 1%Q 3072) ]} |}
               (repeat 2%Q 3072))
    as (rs & w' & Hlist & Hlen & _);
    [discriminate | vm_compute; reflexivity | vm_compute; lia
    | vm_compute; reflexivity | vm_compute; reflexivity |].
  exists rs, w'. split; [exact Hlist | exact Hlen].
Defined.

Example text_short_of_49_polish_letters :
  str_len "Zażółć gęślą jaźń, a potem pchnij w tę łódź jeża." = 49%nat
  ∧ String.length "Zażółć gęślą jaźń, a potem pchnij w tę łódź jeża." = 63%nat
  ∧ text_short "Zażółć gęślą jaźń, a potem pchnij w tę łódź jeża."
    = "Zażółć gęślą jaźń, a potem pchnij w tę łódź jeża.".
Proof. repeat split; vm_compute; reflexivity. Qed.

Example text_short_of_two_lines :
  text_short ("Dzień dobry, chciałbym zamówić kawę."
              +:+ String newline "Czy mogę zapłacić kartą, czy tylko gotówką?")
  = "Dzień dobry, chciałbym zamówić kawę. Czy mogę zapłacić kartą...".
Proof. vm_compute. reflexivity. Qed.

Lemma text_short_fits_one_line_witness :
  text_short "Zażółć gęślą jaźń, a potem pchnij w tę łódź jeża."
  = "Zażółć gęślą jaźń, a potem pchnij w tę łódź jeża."
  ∧ str_len
      (text_short
         ("Dzień dobry, chciałbym zamówić kawę."
          +:+ String newline "Czy mogę zapłacić kartą, czy tylko gotówką?"))
    = 63%nat.
Proof.
  split.
  - apply (text_short_fits_one_line
             "Zażółć gęślą jaźń, a potem pchnij w tę łódź jeża.");
      vm_compute; [lia | reflexivity].
  - apply (text_short_fits_one_line
             ("Dzień dobry, chciałbym zamówić kawę."
              +:+ String newline "Czy mogę zapłacić kartą, czy tylko gotówką?")).
    vm_compute. lia.
Defined.

Lemma every_radio_option_has_a_label_witness :
  let notes := [ {| text := "pierwsza"; score := None |};
                 {| text := "druga"; score := None |} ] in
  1%nat ∈ radio_options notes
  ∧ format_func (note_labels (λ _, "") notes) 1 = Ok "druga".
Proof.
  intros notes.
  assert (Hin : 1%nat ∈ radio_options notes) by (vm_compute; right; left).
  split; [exact Hin |].
  destruct (every_radio_option_has_a_label (λ _, "") notes 1 Hin)
    as (_ & note & Hnote & Hlabel).
  injection Hnote as <-. exact Hlabel.
Defined.


Lemma every_language_option_has_a_prompt_witness :
  "Polish (pl)" ∈ language_display
  ∧ ∃ (k : string) (v : string * string * string),
      selected_lang_code "Polish (pl)" = k
      ∧ selected_lang_prompt "Polish (pl)" = Ok v.1.2.
Proof.
  assert (Hin : "Polish (pl)" ∈ language_display)
    by (vm_compute; do 6 right; left).
  split; [exact Hin |].
  destruct (every_language_option_has_a_prompt "Polish (pl)" Hin)
    as (k & v & _ & _ & Hk & Hv).
  exists k, v. split; [exact Hk | exact Hv].
Defined.


Lemma chat_column_keeps_system_prompt_first_witness :
  system_only_first (chat_history chat_start)
  ∧ system_only_first
      (chat_history (chat_column chat_endpoint_echo "Czy to zdanie?" false
                       chat_start).2).
Proof.
  assert (Hs : system_only_first (chat_history chat_start)) by constructor.
  split; [exact Hs |].
  exact (chat_column_keeps_system_prompt_first chat_endpoint_echo
           "Czy to zdanie?" false chat_start Hs).
Defined.


Example second_question_is_dropped_third_is_sent :
  let s1 := (chat_page chat_endpoint_echo false
               (type_text "Czy to zdanie?" chat_start)).2 in
  let s2 := (chat_page chat_endpoint_echo false (type_text "A to?" s1)).2 in
  let s3 := (chat_page chat_endpoint_echo false (type_text "A to?" s2)).2 in
  length (chat_requests s1) = 1%nat
  ∧ length (chat_requests s2) = 1%nat
  ∧ chat_user_input s2 = Some ""
  ∧ length (chat_requests s3) = 2%nat.
Proof. vm_compute. repeat split. Qed.

Lemma chat_failure_becomes_a_message_witness :
  (chat_column chat_endpoint_down "Czy to zdanie?" false chat_start).1 = Ok false
  ∧ ∃ before,
      chat_history (chat_column chat_endpoint_down "Czy to zdanie?" false
                      chat_start).2
      = before
          ++ [ {| role := user; content := "Czy to zdanie?" |};
               {| role := assistant;
                  content := "Błąd komunikacji z OpenAI: " +:+ "timeout" |} ].
Proof.
  apply (chat_failure_becomes_a_message chat_endpoint_down
           "Czy to zdanie?" chat_start "note_text" (APIError "timeout"));
    [vm_compute; reflexivity | discriminate | intros req; reflexivity].
Defined.

Lemma chat_source_change_resets_history_witness :
  let s := with_prev (Some "Tłumaczenie na PL")
             (with_history [ {| role := user; content := "stare pytanie" |} ]
                chat_start) in
  chat_history (chat_column chat_endpoint_echo "" false s).2
  = [system_prompt "Ala ma kota"].
Proof.
  intros s.
  exact (proj1 (chat_source_change_resets_history chat_endpoint_echo s
                  "note_text" "Tłumaczenie na PL"
                  ltac:(vm_compute; reflexivity) ltac:(reflexivity)
                  ltac:(discriminate))).
Defined.

Lemma chat_clear_button_empties_history_witness :
  chat_history (chat_column chat_endpoint_echo "Czy to zdanie?" true
                  chat_start).2 = [].
Proof.
  exact (proj1 (proj2 (chat_clear_button_empties_history chat_endpoint_echo
                         "Czy to zdanie?" chat_start "note_text"
                         ltac:(vm_compute; reflexivity)))).
Defined.

Lemma api_key_gate_stops_on_empty_env_entry_witness :
  api_key_gate {[ "OPENAI_API_KEY" := Some "" ]} "sk-typed" None
  = {| gate_key := Some ""; gate_input_shown := false; gate_flow := Stop |}.
Proof.
  apply (api_key_gate_stops_on_empty_env_entry
           {[ "OPENAI_API_KEY" := Some "" ]} "sk-typed" None (Some ""));
    reflexivity.
Defined.

Lemma text_to_translate_is_never_empty_witness :
  let texts : gmap string string :=
    {[ "note_text" := "pierwsza"; "note_text_corrected" := "" ]} in
  "Pierwsza wersja notatki" ∈ note_options texts
  ∧ ∃ t, text_to_translate texts "Pierwsza wersja notatki" = Ok t ∧ t ≠ "".
Proof.
  intros texts.
  assert (Hin : "Pierwsza wersja notatki" ∈ note_options texts)
    by (vm_compute; left).
  split; [exact Hin |].
  destruct (text_to_translate_is_never_empty texts "Pierwsza wersja notatki" Hin)
    as (t & Ht & Hne & _).
  exists t. split; [exact Ht | exact Hne].
Defined.
